(** * Map display properties: checkbox bindings over property signals

    A shallow embedding of [gui/wxpython/mapdisp/properties.py]: the
    [PropertyItem] base class, its four checkbox subclasses and the store
    and signals they talk to, with every call on a signal, on the store, on
    a checkbox and on [giface.updateMap] recorded in a chronological trace. *)

From stdpp Require Import gmap list relations.

(** ** Classes, handlers, names *)

(** The four concrete subclasses of [PropertyItem]. *)
Inductive ItemClass := ChBRender | ChBAlignExtent | ChBResolution | ChBShowRegion.

(** An instance of one of the subclasses.  [widget] is the identity of the
    [wx.CheckBox] the instance created in its constructor. *)
Record PropertyItem := { cls : ItemClass; widget : nat }.

(** What can be connected to a signal: the bound method [item._setValue]
    (two bound methods are equal when they are bound to the same instance),
    or a receiver that lives outside the dialog. *)
Inductive Handler := SetValueOf (it : PropertyItem) | Observer (n : nat).

(** The four flags of the store; the same name designates the flag
    ([autoRender]) and its signal ([autoRenderChanged]). *)
Inductive Name := AutoRender | AlignExtent | Resolution | ShowRegion.

#[global] Instance ItemClass_eq_dec : EqDecision ItemClass.
Proof. solve_decision. Defined.
#[global] Instance PropertyItem_eq_dec : EqDecision PropertyItem.
Proof. solve_decision. Defined.
#[global] Instance Handler_eq_dec : EqDecision Handler.
Proof. solve_decision. Defined.
#[global] Instance Name_eq_dec : EqDecision Name.
Proof. solve_decision. Defined.

(** ** Trace *)

Inductive Event :=
| EvDisconnect (sg : Name) (h : Handler)   (* signal.disconnect(h) *)
| EvConnect (sg : Name) (h : Handler)      (* signal.connect(h) *)
| EvWrite (p : Name) (v : bool)            (* store.p = v *)
| EvEmit (sg : Name) (v : bool)            (* the signal fires with v *)
| EvCall (h : Handler) (v : bool)          (* the firing reaches receiver h *)
| EvSetValue (w : nat) (v : bool)          (* checkbox w: SetValue(v) *)
| EvUpdateMap (render : option bool).      (* giface.updateMap.emit(...) *)

(** ** The store *)

(** Modelled from the spec: the class [MapWindowProperties] (the property
    store) is defined outside this module.  It holds four boolean flags,
    each with a signal; a signal is the list of its receivers in
    subscription order. *)
Record MapWindowProperties := {
  autoRender : bool;   autoRenderChanged : list Handler;
  alignExtent : bool;  alignExtentChanged : list Handler;
  resolution : bool;   resolutionChanged : list Handler;
  showRegion : bool;   showRegionChanged : list Handler
}.

Definition get (p : Name) (st : MapWindowProperties) : bool :=
  match p with
  | AutoRender => autoRender st
  | AlignExtent => alignExtent st
  | Resolution => resolution st
  | ShowRegion => showRegion st
  end.

Definition receivers (sg : Name) (st : MapWindowProperties) : list Handler :=
  match sg with
  | AutoRender => autoRenderChanged st
  | AlignExtent => alignExtentChanged st
  | Resolution => resolutionChanged st
  | ShowRegion => showRegionChanged st
  end.

Definition store_value (p : Name) (v : bool) (st : MapWindowProperties)
  : MapWindowProperties :=
  {| autoRender := if decide (p = AutoRender) then v else autoRender st;
     autoRenderChanged := autoRenderChanged st;
     alignExtent := if decide (p = AlignExtent) then v else alignExtent st;
     alignExtentChanged := alignExtentChanged st;
     resolution := if decide (p = Resolution) then v else resolution st;
     resolutionChanged := resolutionChanged st;
     showRegion := if decide (p = ShowRegion) then v else showRegion st;
     showRegionChanged := showRegionChanged st |}.

Definition store_receivers (sg : Name) (l : list Handler)
  (st : MapWindowProperties) : MapWindowProperties :=
  {| autoRender := autoRender st;
     autoRenderChanged := if decide (sg = AutoRender) then l else autoRenderChanged st;
     alignExtent := alignExtent st;
     alignExtentChanged := if decide (sg = AlignExtent) then l else alignExtentChanged st;
     resolution := resolution st;
     resolutionChanged := if decide (sg = Resolution) then l else resolutionChanged st;
     showRegion := showRegion st;
     showRegionChanged := if decide (sg = ShowRegion) then l else showRegionChanged st |}.

(** ** Program state *)

Record State := {
  properties : MapWindowProperties;   (* the store every item refers to *)
  checkboxes : gmap nat bool;         (* displayed value of each checkbox *)
  next_widget : nat;                  (* identity of the next widget created *)
  bound : list PropertyItem;          (* items bound to EVT_CHECKBOX *)
  trace : list Event                  (* oldest event first *)
}.

Definition with_properties (st : MapWindowProperties) (s : State) : State :=
  {| properties := st; checkboxes := checkboxes s; next_widget := next_widget s;
     bound := bound s; trace := trace s |}.

Definition with_checkboxes (m : gmap nat bool) (s : State) : State :=
  {| properties := properties s; checkboxes := m; next_widget := next_widget s;
     bound := bound s; trace := trace s |}.

Definition log (e : Event) (s : State) : State :=
  {| properties := properties s; checkboxes := checkboxes s;
     next_widget := next_widget s; bound := bound s; trace := trace s ++ [e] |}.

(** ** wx.CheckBox *)

Definition CheckBox_GetValue (w : nat) (s : State) : bool :=
  default false (checkboxes s !! w).

Definition CheckBox_SetValue (w : nat) (v : bool) (s : State) : State :=
  with_checkboxes (<[w := v]> (checkboxes s)) (log (EvSetValue w v) s).

(** The user clicks the checkbox: the toolkit flips the displayed value to
    [v] on its own, before it sends EVT_CHECKBOX. *)
Definition user_click (w : nat) (v : bool) (s : State) : State :=
  with_checkboxes (<[w := v]> (checkboxes s)) s.

(** ** PropertyItem *)

Definition _setValue (it : PropertyItem) (value : bool) (s : State) : State :=
  CheckBox_SetValue (widget it) value s.

(** Calling a receiver with the new value.  Receivers outside the dialog
    only take note of the value. *)
Definition call (value : bool) (s : State) (h : Handler) : State :=
  match h with
  | SetValueOf it => _setValue it value (log (EvCall h value) s)
  | Observer _ => log (EvCall h value) s
  end.

(** ** Signals *)

Fixpoint remove_first (h : Handler) (l : list Handler) : list Handler :=
  match l with
  | [] => []
  | x :: l' => if decide (x = h) then l' else x :: remove_first h l'
  end.

(** Modelled from the spec: the signal class is defined outside this
    module.  A signal is an observer list: subscribing appends the handler,
    unsubscribing takes one entry of the handler out, and firing calls the
    receivers synchronously, in subscription order, with the new value. *)
Definition Signal_connect (sg : Name) (h : Handler) (s : State) : State :=
  with_properties
    (store_receivers sg (receivers sg (properties s) ++ [h]) (properties s))
    (log (EvConnect sg h) s).

Definition Signal_disconnect (sg : Name) (h : Handler) (s : State) : State :=
  with_properties
    (store_receivers sg (remove_first h (receivers sg (properties s))) (properties s))
    (log (EvDisconnect sg h) s).

Definition deliver (value : bool) (hs : list Handler) (s : State) : State :=
  fold_left (call value) hs s.

Definition Signal_emit (sg : Name) (value : bool) (s : State) : State :=
  deliver value (receivers sg (properties s)) (log (EvEmit sg value) s).

(** Modelled from the spec: the setter of a store property, missing with
    the store class.  It records the value and fires the property's signal
    with it, whoever the writer is. *)
Definition MapWindowProperties_set (p : Name) (value : bool) (s : State) : State :=
  Signal_emit p value
    (with_properties (store_value p value (properties s)) (log (EvWrite p value) s)).

(** Modelled from the spec: [giface.updateMap], the redraw service, is
    defined outside this module.  A request is fire-and-forget and is
    recorded with the [render] keyword it was given, if any. *)
Definition updateMap_emit (render : option bool) (s : State) : State :=
  log (EvUpdateMap render) s.

(** Modelled from the spec: what the redraw service makes of a request,
    which this module does not define.  Without the [render] keyword the
    map is rendered again in full; [render=False] redraws without a full
    re-render. *)
Definition fullRerender (render : option bool) : bool := default true render.

(** ** Properties of the subclasses *)

(** [mapWindowPropertyChanged]: the signal of the item's flag. *)
Definition mapWindowPropertyChanged (it : PropertyItem) : Name :=
  match cls it with
  | ChBRender => AutoRender
  | ChBAlignExtent => AlignExtent
  | ChBResolution => Resolution
  | ChBShowRegion => ShowRegion
  end.

(** The getter of the [mapWindowProperty] property. *)
Definition mapWindowProperty (it : PropertyItem) (s : State) : bool :=
  match cls it with
  | ChBRender => autoRender (properties s)
  | ChBAlignExtent => alignExtent (properties s)
  | ChBResolution => resolution (properties s)
  | ChBShowRegion => showRegion (properties s)
  end.

(** The setter of the [mapWindowProperty] property. *)
Definition set_mapWindowProperty (it : PropertyItem) (value : bool) (s : State)
  : State :=
  match cls it with
  | ChBRender => MapWindowProperties_set AutoRender value s
  | ChBAlignExtent => MapWindowProperties_set AlignExtent value s
  | ChBResolution => MapWindowProperties_set Resolution value s
  | ChBShowRegion => MapWindowProperties_set ShowRegion value s
  end.

Definition _connect (it : PropertyItem) (s : State) : State :=
  Signal_connect (mapWindowPropertyChanged it) (SetValueOf it) s.

Definition _disconnect (it : PropertyItem) (s : State) : State :=
  Signal_disconnect (mapWindowPropertyChanged it) (SetValueOf it) s.

Definition PropertyItem_onToggleCheckBox (it : PropertyItem) (s : State) : State :=
  let s1 := _disconnect it s in
  let s2 := set_mapWindowProperty it (CheckBox_GetValue (widget it) s1) s1 in
  _connect it s2.

Definition ChBResolution_onToggleCheckBox (it : PropertyItem) (s : State) : State :=
  let s1 := PropertyItem_onToggleCheckBox it s in
  if autoRender (properties s1) then updateMap_emit None s1 else s1.

Definition ChBShowRegion_onToggleCheckBox (it : PropertyItem) (s : State) : State :=
  let s1 := PropertyItem_onToggleCheckBox it s in
  if autoRender (properties s1) then updateMap_emit (Some false) s1 else s1.

(** Method resolution: the two subclasses that override the handler. *)
Definition _onToggleCheckBox (it : PropertyItem) (s : State) : State :=
  match cls it with
  | ChBRender | ChBAlignExtent => PropertyItem_onToggleCheckBox it s
  | ChBResolution => ChBResolution_onToggleCheckBox it s
  | ChBShowRegion => ChBShowRegion_onToggleCheckBox it s
  end.

(** The constructors of the four subclasses share one shape: create the
    checkbox, seed it from the store, bind the toggle handler, connect. *)
Definition __init__ (c : ItemClass) (s : State) : PropertyItem * State :=
  let it := {| cls := c; widget := next_widget s |} in
  let s1 := {| properties := properties s;
               checkboxes := <[widget it := false]> (checkboxes s);
               next_widget := S (next_widget s);
               bound := bound s; trace := trace s |} in
  let s2 := CheckBox_SetValue (widget it) (mapWindowProperty it s1) s1 in
  let s3 := {| properties := properties s2; checkboxes := checkboxes s2;
               next_widget := next_widget s2;
               bound := bound s2 ++ [it]; trace := trace s2 |} in
  (it, _connect it s3).

(** A user toggle of the item's checkbox to [v]. *)
Definition user_toggle (it : PropertyItem) (v : bool) (s : State) : State :=
  _onToggleCheckBox it (user_click (widget it) v s).

(** ** Reading the trace *)

(** The events recorded between an earlier state and a later one. *)
Definition since (s s' : State) : list Event :=
  drop (length (trace s)) (trace s').

Definition writes (tr : list Event) : list (Name * bool) :=
  omap (fun e => match e with EvWrite p v => Some (p, v) | _ => None end) tr.

Definition emissions (tr : list Event) : list (Name * bool) :=
  omap (fun e => match e with EvEmit sg v => Some (sg, v) | _ => None end) tr.

Definition deliveries (tr : list Event) : list (Handler * bool) :=
  omap (fun e => match e with EvCall h v => Some (h, v) | _ => None end) tr.

Definition redraws (tr : list Event) : list (option bool) :=
  omap (fun e => match e with EvUpdateMap r => Some r | _ => None end) tr.

(** Programmatic changes of checkbox [w]. *)
Definition widget_sets (w : nat) (tr : list Event) : list bool :=
  omap (fun e => match e with
                 | EvSetValue w' v => if decide (w' = w) then Some v else None
                 | _ => None
                 end) tr.

(** The calls on the store and on its signals. *)
Definition protocol_steps (tr : list Event) : list Event :=
  omap (fun e => match e with
                 | EvDisconnect _ _ | EvConnect _ _ | EvWrite _ _ => Some e
                 | _ => None
                 end) tr.

(** How often a handler is connected. *)
Fixpoint occurrences (h : Handler) (l : list Handler) : nat :=
  match l with
  | [] => 0
  | x :: l' => (if decide (x = h) then 1 else 0) + occurrences h l'
  end.

Definition subscriptions (it : PropertyItem) (s : State) : nat :=
  occurrences (SetValueOf it) (receivers (mapWindowPropertyChanged it) (properties s)).

(** The receivers of the item's signal other than the item's own handler. *)
Definition other_receivers (it : PropertyItem) (s : State) : list Handler :=
  filter (fun h => h ≠ SetValueOf it)
    (receivers (mapWindowPropertyChanged it) (properties s)).

(** ** The life of a dialog as a transition system *)

(** Where the program stands: outside any toggle handler, or inside the
    handler of [it], after its disconnect or after its write. *)
Inductive Phase :=
| Idle
| Unsubscribed (it : PropertyItem)
| Written (it : PropertyItem).

(** The two states of a binding. *)
Inductive BindingState := Subscribed | Updating.

Definition binding_state (ph : Phase) (it : PropertyItem) : BindingState :=
  match ph with
  | Idle => Subscribed
  | Unsubscribed it' | Written it' => if decide (it = it') then Updating else Subscribed
  end.

(** What the overriding handlers do once the inherited handler returned. *)
Definition post_toggle (it : PropertyItem) (s : State) : State :=
  match cls it with
  | ChBRender | ChBAlignExtent => s
  | ChBResolution => if autoRender (properties s) then updateMap_emit None s else s
  | ChBShowRegion => if autoRender (properties s) then updateMap_emit (Some false) s else s
  end.

Inductive step : Phase * State -> Phase * State -> Prop :=
| step_construct c s :
    step (Idle, s) (Idle, (__init__ c s).2)
| step_external p v s :
    step (Idle, s) (Idle, MapWindowProperties_set p v s)
| step_unsubscribe it v s :
    it ∈ bound s ->
    step (Idle, s) (Unsubscribed it, _disconnect it (user_click (widget it) v s))
| step_write it s :
    step (Unsubscribed it, s)
         (Written it, set_mapWindowProperty it (CheckBox_GetValue (widget it) s) s)
| step_resubscribe it s :
    step (Written it, s) (Idle, post_toggle it (_connect it s)).

Definition is_observer (h : Handler) : Prop :=
  match h with Observer _ => True | SetValueOf _ => False end.

(** Before the dialog exists only receivers outside of it are connected. *)
Definition outside_only (st : MapWindowProperties) : Prop :=
  forall sg, Forall is_observer (receivers sg st).

Definition initial_state (st : MapWindowProperties) : State :=
  {| properties := st; checkboxes := ∅; next_widget := 0; bound := []; trace := [] |}.

Definition reachable (ph : Phase) (s : State) : Prop :=
  exists st, outside_only st /\ rtc step (Idle, initial_state st) (ph, s).

(** The invariant carried along every run. *)
Record invariant (ph : Phase) (s : State) : Prop := {
  inv_fresh : forall it, it ∈ bound s -> widget it < next_widget s;
  inv_nodup : NoDup (widget <$> bound s);
  inv_receivers : forall sg it, SetValueOf it ∈ receivers sg (properties s) ->
                    it ∈ bound s /\ mapWindowPropertyChanged it = sg;
  inv_subscribed : forall it, it ∈ bound s ->
                    subscriptions it s =
                      match binding_state ph it with Subscribed => 1 | Updating => 0 end;
  inv_phase : forall it, ph = Unsubscribed it \/ ph = Written it -> it ∈ bound s
}.

(** A store and a run used to exercise the theorems: one outside receiver
    listens to each of [autoRenderChanged] and [resolutionChanged]. *)
Definition demo_store (ar : bool) : MapWindowProperties :=
  {| autoRender := ar;     autoRenderChanged := [Observer 0];
     alignExtent := false; alignExtentChanged := [];
     resolution := false;  resolutionChanged := [Observer 1];
     showRegion := false;  showRegionChanged := [] |}.

(** The dialog's display page: the four items, in the order of
    [_createDisplayPage]. *)
Definition createDisplayPage (s : State) : State :=
  let s1 := (__init__ ChBRender s).2 in
  let s2 := (__init__ ChBAlignExtent s1).2 in
  let s3 := (__init__ ChBResolution s2).2 in
  (__init__ ChBShowRegion s3).2.

Definition demo_state (ar : bool) : State :=
  createDisplayPage (initial_state (demo_store ar)).

(** The same map display with a second settings dialog open. *)
Definition demo_two_dialogs (ar : bool) : State :=
  createDisplayPage (demo_state ar).

(** ** Expected traces *)

(** The events of one call of a receiver. *)
Definition call_events (v : bool) (h : Handler) : list Event :=
  match h with
  | SetValueOf it => [EvCall h v; EvSetValue (widget it) v]
  | Observer _ => [EvCall h v]
  end.

(** The events of the inherited toggle handler of [it] when its checkbox
    displays [v] and the store is [st]. *)
Definition bracket_events (it : PropertyItem) (v : bool) (st : MapWindowProperties)
  : list Event :=
  let sg := mapWindowPropertyChanged it in
  let h := SetValueOf it in
  EvDisconnect sg h :: EvWrite sg v :: EvEmit sg v ::
    (remove_first h (receivers sg st) ≫= call_events v) ++ [EvConnect sg h].

(** The events the overriding handlers add when [autoRender] is [ar]. *)
Definition redraw_events (it : PropertyItem) (ar : bool) : list Event :=
  match cls it with
  | ChBRender | ChBAlignExtent => []
  | ChBResolution => if ar then [EvUpdateMap None] else []
  | ChBShowRegion => if ar then [EvUpdateMap (Some false)] else []
  end.

(** ** The rest of the module *)

(** [GetWidget]: the checkbox the item created in its constructor. *)
Definition GetWidget (it : PropertyItem) : nat := widget it.

(** An item displays its flag when its checkbox shows what the getter of
    [mapWindowProperty] returns. *)
Definition displays_flag (s : State) (it : PropertyItem) : Prop :=
  CheckBox_GetValue (GetWidget it) s = mapWindowProperty it s.

(** Every bound item displays its flag, but for the item whose handler
    stands between its disconnect and its write. *)
Definition synchronized (ph : Phase) (s : State) : Prop :=
  forall it, it ∈ bound s -> ph ≠ Unsubscribed it -> displays_flag s it.

Module MapDisplayPropertiesDialog.

(** What [_createDisplayPage] leaves behind: the four attributes it sets on
    the dialog, and the checkboxes its sizer holds, in the order of the
    [sizer.Add] calls. *)
Record DisplayPage := {
  autoRendering : PropertyItem;
  alignExtent : PropertyItem;
  compResolution : PropertyItem;
  showCompExtent : PropertyItem;
  sizer : list nat
}.

Definition _createDisplayPage (s : State) : DisplayPage * State :=
  let sizer0 := [] in
  let r := __init__ ChBRender s in
  let sizer1 := sizer0 ++ [GetWidget r.1] in
  let a := __init__ ChBAlignExtent r.2 in
  let sizer2 := sizer1 ++ [GetWidget a.1] in
  let c := __init__ ChBResolution a.2 in
  let sizer3 := sizer2 ++ [GetWidget c.1] in
  let g := __init__ ChBShowRegion c.2 in
  let sizer4 := sizer3 ++ [GetWidget g.1] in
  ({| autoRendering := r.1; alignExtent := a.1; compResolution := c.1;
      showCompExtent := g.1; sizer := sizer4 |}, g.2).

End MapDisplayPropertiesDialog.

(** * Basic facts *)

Section Store.
Implicit Types (st : MapWindowProperties) (p sg : Name) (v : bool).

Lemma get_store_value p q v st :
  get q (store_value p v st) = if decide (p = q) then v else get q st.
Proof. destruct p, q; reflexivity. Qed.

Lemma receivers_store_value p sg v st :
  receivers sg (store_value p v st) = receivers sg st.
Proof. destruct sg; reflexivity. Qed.

Lemma get_store_receivers sg p l st :
  get p (store_receivers sg l st) = get p st.
Proof. destruct p; reflexivity. Qed.

Lemma receivers_store_receivers sg sg' l st :
  receivers sg' (store_receivers sg l st) =
    if decide (sg = sg') then l else receivers sg' st.
Proof. destruct sg, sg'; reflexivity. Qed.

Lemma autoRender_get st : autoRender st = get AutoRender st.
Proof. reflexivity. Qed.
End Store.

Lemma mapWindowProperty_get it s :
  mapWindowProperty it s = get (mapWindowPropertyChanged it) (properties s).
Proof. unfold mapWindowProperty, mapWindowPropertyChanged. destruct (cls it); reflexivity. Qed.

Lemma set_mapWindowProperty_set it v s :
  set_mapWindowProperty it v s = MapWindowProperties_set (mapWindowPropertyChanged it) v s.
Proof. unfold set_mapWindowProperty, mapWindowPropertyChanged. destruct (cls it); reflexivity. Qed.

(** The handler of every subclass is the inherited bracket, followed by
    what the subclass adds. *)
Lemma onToggleCheckBox_unfold it s :
  _onToggleCheckBox it s =
    post_toggle it
      (_connect it
         (set_mapWindowProperty it (CheckBox_GetValue (widget it) (_disconnect it s))
            (_disconnect it s))).
Proof.
  unfold _onToggleCheckBox, post_toggle, ChBResolution_onToggleCheckBox,
    ChBShowRegion_onToggleCheckBox, PropertyItem_onToggleCheckBox.
  destruct (cls it); reflexivity.
Qed.

(** ** Delivery of a firing *)

Lemma deliver_trace v hs s :
  trace (deliver v hs s) = trace s ++ hs ≫= call_events v.
Proof.
  revert s. induction hs as [|h hs IH]; intros s; simpl.
  - by rewrite app_nil_r.
  - unfold deliver in *. simpl. rewrite IH.
    destruct h; simpl; by rewrite <- ?app_assoc.
Qed.

Lemma deliver_properties v hs s : properties (deliver v hs s) = properties s.
Proof.
  revert s. induction hs as [|h hs IH]; intros s; [done|].
  unfold deliver in *. simpl. rewrite IH. by destruct h.
Qed.

Lemma deliver_bound v hs s : bound (deliver v hs s) = bound s.
Proof.
  revert s. induction hs as [|h hs IH]; intros s; [done|].
  unfold deliver in *. simpl. rewrite IH. by destruct h.
Qed.

Lemma deliver_next_widget v hs s : next_widget (deliver v hs s) = next_widget s.
Proof.
  revert s. induction hs as [|h hs IH]; intros s; [done|].
  unfold deliver in *. simpl. rewrite IH. by destruct h.
Qed.

(** A checkbox no receiver of the list owns keeps its value. *)
Lemma deliver_checkbox_other v hs s w :
  (forall it, SetValueOf it ∈ hs -> widget it ≠ w) ->
  checkboxes (deliver v hs s) !! w = checkboxes s !! w.
Proof.
  revert s. induction hs as [|h hs IH]; intros s Hw; [done|].
  unfold deliver in *. simpl. rewrite IH.
  - destruct h as [it|n]; simpl; [|done].
    rewrite lookup_insert_ne; [done|]. apply Hw. left.
  - intros it Hit. apply Hw. by right.
Qed.

(** Every item among the receivers ends up displaying the value. *)
Lemma deliver_checkbox_mine v hs s it :
  SetValueOf it ∈ hs -> checkboxes (deliver v hs s) !! widget it = Some v.
Proof.
  revert s. induction hs as [|h hs IH] using rev_ind; intros s Hin.
  - by apply elem_of_nil in Hin.
  - unfold deliver in *. rewrite fold_left_app. simpl.
    apply elem_of_app in Hin as [Hin|Hin].
    + destruct h as [it'|n]; simpl; [|by apply IH].
      destruct (decide (widget it' = widget it)) as [->|Hne].
      * by rewrite lookup_insert_eq.
      * rewrite lookup_insert_ne by done. by apply IH.
    + apply list_elem_of_singleton in Hin as <-. simpl. by rewrite lookup_insert_eq.
Qed.

(** ** The primitives, one projection at a time *)

Lemma since_app s s' d : trace s' = trace s ++ d -> since s s' = d.
Proof. intros Hd. unfold since. rewrite Hd. by rewrite drop_app_length. Qed.

Section Connect.
Variables (sg : Name) (h : Handler) (s : State).

Lemma trace_connect : trace (Signal_connect sg h s) = trace s ++ [EvConnect sg h].
Proof. reflexivity. Qed.

Lemma get_connect p : get p (properties (Signal_connect sg h s)) = get p (properties s).
Proof. apply get_store_receivers. Qed.

Lemma receivers_connect sg' :
  receivers sg' (properties (Signal_connect sg h s)) =
    if decide (sg = sg') then receivers sg (properties s) ++ [h]
    else receivers sg' (properties s).
Proof. apply receivers_store_receivers. Qed.

Lemma trace_disconnect :
  trace (Signal_disconnect sg h s) = trace s ++ [EvDisconnect sg h].
Proof. reflexivity. Qed.

Lemma get_disconnect p :
  get p (properties (Signal_disconnect sg h s)) = get p (properties s).
Proof. apply get_store_receivers. Qed.

Lemma receivers_disconnect sg' :
  receivers sg' (properties (Signal_disconnect sg h s)) =
    if decide (sg = sg') then remove_first h (receivers sg (properties s))
    else receivers sg' (properties s).
Proof. apply receivers_store_receivers. Qed.
End Connect.

Section Setter.
Variables (p : Name) (v : bool) (s : State).

Lemma trace_set :
  trace (MapWindowProperties_set p v s) =
    trace s ++ EvWrite p v :: EvEmit p v :: receivers p (properties s) ≫= call_events v.
Proof.
  unfold MapWindowProperties_set, Signal_emit. rewrite deliver_trace. simpl.
  rewrite receivers_store_value. by rewrite <- !app_assoc.
Qed.

Lemma properties_set :
  properties (MapWindowProperties_set p v s) = store_value p v (properties s).
Proof. unfold MapWindowProperties_set, Signal_emit. by rewrite deliver_properties. Qed.

Lemma get_set q :
  get q (properties (MapWindowProperties_set p v s)) =
    if decide (p = q) then v else get q (properties s).
Proof. rewrite properties_set. apply get_store_value. Qed.

Lemma receivers_set sg :
  receivers sg (properties (MapWindowProperties_set p v s)) =
    receivers sg (properties s).
Proof. rewrite properties_set. apply receivers_store_value. Qed.

Lemma bound_set : bound (MapWindowProperties_set p v s) = bound s.
Proof. unfold MapWindowProperties_set, Signal_emit. by rewrite deliver_bound. Qed.

Lemma next_widget_set : next_widget (MapWindowProperties_set p v s) = next_widget s.
Proof. unfold MapWindowProperties_set, Signal_emit. by rewrite deliver_next_widget. Qed.

Lemma checkbox_set_mine it :
  SetValueOf it ∈ receivers p (properties s) ->
  CheckBox_GetValue (widget it) (MapWindowProperties_set p v s) = v.
Proof.
  intros Hin. unfold CheckBox_GetValue, MapWindowProperties_set, Signal_emit.
  rewrite deliver_checkbox_mine; [done|]. simpl. by rewrite receivers_store_value.
Qed.

Lemma checkbox_set_other w :
  (forall it, SetValueOf it ∈ receivers p (properties s) -> widget it ≠ w) ->
  CheckBox_GetValue w (MapWindowProperties_set p v s) = CheckBox_GetValue w s.
Proof.
  intros Hw. unfold CheckBox_GetValue, MapWindowProperties_set, Signal_emit.
  rewrite deliver_checkbox_other; [done|]. simpl. by rewrite receivers_store_value.
Qed.
End Setter.

Lemma post_toggle_trace it s :
  trace (post_toggle it s) = trace s ++ redraw_events it (autoRender (properties s)).
Proof.
  unfold post_toggle, redraw_events.
  destruct (cls it); try destruct (autoRender _); simpl; by rewrite ?app_nil_r.
Qed.

Lemma post_toggle_rest it s :
  properties (post_toggle it s) = properties s
  /\ checkboxes (post_toggle it s) = checkboxes s
  /\ bound (post_toggle it s) = bound s
  /\ next_widget (post_toggle it s) = next_widget s.
Proof. unfold post_toggle. destruct (cls it); try destruct (autoRender _); done. Qed.

(** ** Occurrences and removal *)

Lemma occurrences_app h l1 l2 :
  occurrences h (l1 ++ l2) = occurrences h l1 + occurrences h l2.
Proof. induction l1 as [|x l1 IH]; simpl; [done|]. rewrite IH. lia. Qed.

Lemma occurrences_zero h l : h ∉ l -> occurrences h l = 0.
Proof.
  induction l as [|x l IH]; simpl; [done|]. intros Hn.
  apply not_elem_of_cons in Hn as [Hne Hn]. rewrite decide_False by done. by rewrite IH.
Qed.

Lemma occurrences_pos h l : h ∈ l -> 0 < occurrences h l.
Proof.
  induction l as [|x l IH]; simpl; intros Hin.
  - by apply elem_of_nil in Hin.
  - apply elem_of_cons in Hin as [->|Hin].
    + rewrite decide_True by done. lia.
    + specialize (IH Hin). lia.
Qed.

Lemma occurrences_remove_first_same h l :
  occurrences h (remove_first h l) = pred (occurrences h l).
Proof.
  induction l as [|x l IH]; simpl; [done|].
  destruct (decide (x = h)) as [->|Hne]; simpl; [done|].
  by rewrite decide_False by done.
Qed.

Lemma occurrences_remove_first_other h h' l :
  h ≠ h' -> occurrences h' (remove_first h l) = occurrences h' l.
Proof.
  intros Hne. induction l as [|x l IH]; simpl; [done|].
  destruct (decide (x = h)) as [->|Hx]; simpl.
  - by rewrite decide_False by done.
  - by rewrite IH.
Qed.

Lemma remove_first_subseteq h l : remove_first h l ⊆ l.
Proof.
  induction l as [|x l IH]; simpl; [done|].
  destruct (decide (x = h)); [intros y Hy; by right|].
  intros y Hy. apply elem_of_cons in Hy as [->|Hy]; [left|right; by apply IH].
Qed.

Lemma remove_first_other h h' l : h' ≠ h -> h' ∈ l -> h' ∈ remove_first h l.
Proof.
  intros Hne. induction l as [|x l IH]; simpl; [done|]. intros Hin.
  destruct (decide (x = h)) as [->|Hx].
  - apply elem_of_cons in Hin as [?|?]; [congruence|done].
  - apply elem_of_cons in Hin as [->|Hin]; [left|right; auto].
Qed.

(** With a single entry, taking one out leaves none. *)
Lemma remove_first_gone h l : occurrences h l <= 1 -> h ∉ remove_first h l.
Proof.
  intros Hle Hin. apply occurrences_pos in Hin.
  rewrite occurrences_remove_first_same in Hin. lia.
Qed.

(** ** Reading the events of a delivery *)

Section Calls.
Variables (v : bool).

Lemma writes_calls hs : writes (hs ≫= call_events v) = [].
Proof.
  induction hs as [|h hs IH]; [done|]. rewrite bind_cons. unfold writes in *.
  rewrite omap_app, IH. by destruct h.
Qed.

Lemma emissions_calls hs : emissions (hs ≫= call_events v) = [].
Proof.
  induction hs as [|h hs IH]; [done|]. rewrite bind_cons. unfold emissions in *.
  rewrite omap_app, IH. by destruct h.
Qed.

Lemma redraws_calls hs : redraws (hs ≫= call_events v) = [].
Proof.
  induction hs as [|h hs IH]; [done|]. rewrite bind_cons. unfold redraws in *.
  rewrite omap_app, IH. by destruct h.
Qed.

Lemma protocol_steps_calls hs : protocol_steps (hs ≫= call_events v) = [].
Proof.
  induction hs as [|h hs IH]; [done|]. rewrite bind_cons. unfold protocol_steps in *.
  rewrite omap_app, IH. by destruct h.
Qed.

Lemma deliveries_calls hs :
  deliveries (hs ≫= call_events v) = (fun h => (h, v)) <$> hs.
Proof.
  induction hs as [|h hs IH]; [done|]. rewrite bind_cons. unfold deliveries in *.
  rewrite omap_app, IH. by destruct h.
Qed.

Lemma widget_sets_calls w hs :
  (forall it, SetValueOf it ∈ hs -> widget it ≠ w) ->
  widget_sets w (hs ≫= call_events v) = [].
Proof.
  induction hs as [|h hs IH]; intros Hw; [done|]. rewrite bind_cons.
  unfold widget_sets in *. rewrite omap_app, IH.
  - destruct h as [it|n]; simpl; [|done].
    rewrite decide_False; [done|]. apply Hw. left.
  - intros it Hit. apply Hw. by right.
Qed.
End Calls.

(** ** The toggle handler as a whole *)

Section Toggle.
Variables (it : PropertyItem) (s : State).
Let sg := mapWindowPropertyChanged it.
Let h := SetValueOf it.

Lemma inherited_trace :
  trace (PropertyItem_onToggleCheckBox it s) =
    trace s ++ bracket_events it (CheckBox_GetValue (widget it) s) (properties s).
Proof.
  unfold PropertyItem_onToggleCheckBox, _connect, _disconnect, bracket_events.
  rewrite trace_connect, set_mapWindowProperty_set, trace_set, trace_disconnect.
  rewrite receivers_disconnect, decide_True by done.
  simpl. by rewrite <- !app_assoc.
Qed.

Lemma inherited_get q :
  get q (properties (PropertyItem_onToggleCheckBox it s)) =
    if decide (sg = q) then CheckBox_GetValue (widget it) s else get q (properties s).
Proof.
  unfold PropertyItem_onToggleCheckBox, _connect, _disconnect.
  by rewrite get_connect, set_mapWindowProperty_set, get_set, get_disconnect.
Qed.

Lemma inherited_receivers sg' :
  receivers sg' (properties (PropertyItem_onToggleCheckBox it s)) =
    if decide (sg = sg') then remove_first h (receivers sg (properties s)) ++ [h]
    else receivers sg' (properties s).
Proof.
  unfold PropertyItem_onToggleCheckBox, _connect, _disconnect.
  rewrite receivers_connect, set_mapWindowProperty_set, !receivers_set.
  rewrite !receivers_disconnect. fold sg h.
  destruct (decide (sg = sg')); [by rewrite decide_True|done].
Qed.

Lemma inherited_bound : bound (PropertyItem_onToggleCheckBox it s) = bound s.
Proof.
  unfold PropertyItem_onToggleCheckBox, _connect, _disconnect.
  rewrite set_mapWindowProperty_set. simpl. by rewrite bound_set.
Qed.

Lemma inherited_next_widget :
  next_widget (PropertyItem_onToggleCheckBox it s) = next_widget s.
Proof.
  unfold PropertyItem_onToggleCheckBox, _connect, _disconnect.
  rewrite set_mapWindowProperty_set. simpl. by rewrite next_widget_set.
Qed.

Lemma inherited_checkbox w :
  (forall it', SetValueOf it' ∈ remove_first h (receivers sg (properties s)) ->
               widget it' ≠ w) ->
  CheckBox_GetValue w (PropertyItem_onToggleCheckBox it s) = CheckBox_GetValue w s.
Proof.
  intros Hw. unfold PropertyItem_onToggleCheckBox, _connect, _disconnect.
  rewrite set_mapWindowProperty_set.
  change (CheckBox_GetValue w (Signal_connect ?a ?b ?c)) with (CheckBox_GetValue w c).
  rewrite checkbox_set_other; [done|].
  intros it'. rewrite receivers_disconnect, decide_True by done. apply Hw.
Qed.

Lemma onToggleCheckBox_post :
  _onToggleCheckBox it s = post_toggle it (PropertyItem_onToggleCheckBox it s).
Proof. apply onToggleCheckBox_unfold. Qed.

Lemma onToggleCheckBox_trace :
  trace (_onToggleCheckBox it s) =
    trace s ++ bracket_events it (CheckBox_GetValue (widget it) s) (properties s)
      ++ redraw_events it (autoRender (properties (PropertyItem_onToggleCheckBox it s))).
Proof.
  rewrite onToggleCheckBox_post, post_toggle_trace, inherited_trace.
  by rewrite <- app_assoc.
Qed.

Lemma onToggleCheckBox_properties :
  properties (_onToggleCheckBox it s) =
    properties (PropertyItem_onToggleCheckBox it s).
Proof. rewrite onToggleCheckBox_post. apply post_toggle_rest. Qed.

Lemma onToggleCheckBox_checkboxes :
  checkboxes (_onToggleCheckBox it s) =
    checkboxes (PropertyItem_onToggleCheckBox it s).
Proof. rewrite onToggleCheckBox_post. apply post_toggle_rest. Qed.
End Toggle.

Lemma bracket_writes it v st :
  writes (bracket_events it v st) = [(mapWindowPropertyChanged it, v)].
Proof.
  unfold bracket_events, writes. simpl. rewrite omap_app.
  fold (writes (remove_first (SetValueOf it) (receivers (mapWindowPropertyChanged it) st)
                  ≫= call_events v)).
  by rewrite writes_calls.
Qed.

Lemma bracket_emissions it v st :
  emissions (bracket_events it v st) = [(mapWindowPropertyChanged it, v)].
Proof.
  unfold bracket_events, emissions. simpl. rewrite omap_app.
  fold (emissions (remove_first (SetValueOf it) (receivers (mapWindowPropertyChanged it) st)
                  ≫= call_events v)).
  by rewrite emissions_calls.
Qed.

Lemma bracket_redraws it v st : redraws (bracket_events it v st) = [].
Proof.
  unfold bracket_events, redraws. simpl. rewrite omap_app.
  fold (redraws (remove_first (SetValueOf it) (receivers (mapWindowPropertyChanged it) st)
                  ≫= call_events v)).
  by rewrite redraws_calls.
Qed.

Lemma bracket_protocol_steps it v st :
  protocol_steps (bracket_events it v st) =
    [EvDisconnect (mapWindowPropertyChanged it) (SetValueOf it);
     EvWrite (mapWindowPropertyChanged it) v;
     EvConnect (mapWindowPropertyChanged it) (SetValueOf it)].
Proof.
  unfold bracket_events, protocol_steps. simpl. rewrite omap_app.
  fold (protocol_steps
          (remove_first (SetValueOf it) (receivers (mapWindowPropertyChanged it) st)
             ≫= call_events v)).
  by rewrite protocol_steps_calls.
Qed.

Lemma bracket_deliveries it v st :
  deliveries (bracket_events it v st) =
    (fun h => (h, v)) <$>
      remove_first (SetValueOf it) (receivers (mapWindowPropertyChanged it) st).
Proof.
  unfold bracket_events, deliveries. simpl. rewrite omap_app.
  fold (deliveries
          (remove_first (SetValueOf it) (receivers (mapWindowPropertyChanged it) st)
             ≫= call_events v)).
  rewrite deliveries_calls. simpl. by rewrite app_nil_r.
Qed.

Lemma bracket_widget_sets it v st w :
  (forall it', SetValueOf it' ∈
       remove_first (SetValueOf it) (receivers (mapWindowPropertyChanged it) st) ->
     widget it' ≠ w) ->
  widget_sets w (bracket_events it v st) = [].
Proof.
  intros Hw. unfold bracket_events, widget_sets. simpl. rewrite omap_app.
  fold (widget_sets w
          (remove_first (SetValueOf it) (receivers (mapWindowPropertyChanged it) st)
             ≫= call_events v)).
  by rewrite widget_sets_calls.
Qed.

Lemma redraw_events_only it ar :
  writes (redraw_events it ar) = [] /\ emissions (redraw_events it ar) = []
  /\ deliveries (redraw_events it ar) = [] /\ protocol_steps (redraw_events it ar) = []
  /\ forall w, widget_sets w (redraw_events it ar) = [].
Proof. unfold redraw_events. destruct (cls it), ar; done. Qed.

(** ** The constructor *)

Section Init.
Variables (c : ItemClass) (s : State).
Let it := (__init__ c s).1.
Let s' := (__init__ c s).2.

Lemma init_item : it = {| cls := c; widget := next_widget s |}.
Proof. reflexivity. Qed.

Lemma init_trace :
  trace s' = trace s ++ [EvSetValue (widget it) (mapWindowProperty it s);
                         EvConnect (mapWindowPropertyChanged it) (SetValueOf it)].
Proof.
  unfold s', __init__. simpl. rewrite <- app_assoc. simpl.
  by rewrite !mapWindowProperty_get.
Qed.

Lemma init_get p : get p (properties s') = get p (properties s).
Proof. unfold s', __init__. simpl. by rewrite get_store_receivers. Qed.

Lemma init_receivers sg' :
  receivers sg' (properties s') =
    if decide (mapWindowPropertyChanged it = sg')
    then receivers (mapWindowPropertyChanged it) (properties s) ++ [SetValueOf it]
    else receivers sg' (properties s).
Proof. unfold s', __init__. simpl. by rewrite receivers_store_receivers. Qed.

Lemma init_bound : bound s' = bound s ++ [it].
Proof. reflexivity. Qed.

Lemma init_next_widget : next_widget s' = S (next_widget s).
Proof. reflexivity. Qed.

Lemma init_checkbox : CheckBox_GetValue (widget it) s' = mapWindowProperty it s.
Proof.
  unfold s', __init__, CheckBox_GetValue. simpl. rewrite lookup_insert_eq. simpl.
  by rewrite !mapWindowProperty_get.
Qed.
End Init.

(** ** The invariant along a run *)

Lemma invariant_initial st : outside_only st -> invariant Idle (initial_state st).
Proof.
  intros Hout. split; simpl.
  - intros it Hit. by apply elem_of_nil in Hit.
  - constructor.
  - intros sg it Hin. specialize (Hout sg).
    rewrite Forall_forall in Hout. destruct (Hout _ Hin).
  - intros it Hit. by apply elem_of_nil in Hit.
  - intros it [?|?]; done.
Qed.

Local Ltac new_item :=
  change ((__init__ ?c ?s).1) with {| cls := c; widget := next_widget s |} in *.

Lemma invariant_construct c s :
  invariant Idle s -> invariant Idle (__init__ c s).2.
Proof.
  intros [Hfresh Hnodup Hrecv Hsub _].
  set (it := {| cls := c; widget := next_widget s |}).
  assert (Hnew : it ∉ bound s).
  { intros Hin. apply Hfresh in Hin. simpl in Hin. lia. }
  split.
  - intros it'. rewrite init_bound, init_next_widget, elem_of_app, list_elem_of_singleton.
    new_item. intros [Hin| ->]; [apply Hfresh in Hin; lia|]. simpl. lia.
  - rewrite init_bound, fmap_app. new_item. apply NoDup_app. split; [done|]. split.
    + intros w Hw Hw'. apply list_elem_of_singleton in Hw'. simpl in Hw'.
      apply list_elem_of_fmap in Hw as (it' & -> & Hin). apply Hfresh in Hin. lia.
    + apply NoDup_singleton.
  - intros sg it'. rewrite init_receivers, init_bound. new_item. fold it.
    destruct (decide (mapWindowPropertyChanged it = sg)) as [<-|Hne].
    + rewrite !elem_of_app, !list_elem_of_singleton. intros [Hin|Heq].
      * destruct (Hrecv _ _ Hin) as [Hb Hsg]. split; [by left|done].
      * injection Heq as ->. split; [by right|done].
    + intros Hin. destruct (Hrecv _ _ Hin) as [Hb Hsg]. rewrite elem_of_app.
      split; [by left|done].
  - intros it'. rewrite init_bound, elem_of_app, list_elem_of_singleton.
    unfold subscriptions. rewrite init_receivers. new_item. fold it. simpl. intros Hin.
    destruct (decide (mapWindowPropertyChanged it = mapWindowPropertyChanged it'))
      as [Heq|Hne].
    + rewrite occurrences_app. simpl. destruct Hin as [Hin| ->].
      * rewrite decide_False by (intros [= <-]; done).
        specialize (Hsub _ Hin). unfold subscriptions in Hsub. simpl in Hsub.
        rewrite Heq, Hsub. lia.
      * rewrite decide_True by done. rewrite occurrences_zero; [done|].
        intros Hin. by apply Hrecv in Hin as [? _].
    + destruct Hin as [Hin| ->]; [|done]. by apply (Hsub _ Hin).
  - intros it' [?|?]; done.
Qed.

Lemma invariant_external p v s :
  invariant Idle s -> invariant Idle (MapWindowProperties_set p v s).
Proof.
  intros [Hfresh Hnodup Hrecv Hsub Hph]. split; unfold subscriptions;
    try setoid_rewrite receivers_set; rewrite ?bound_set, ?next_widget_set; done.
Qed.

Lemma invariant_unsubscribe it v s :
  it ∈ bound s -> invariant Idle s ->
  invariant (Unsubscribed it) (_disconnect it (user_click (widget it) v s)).
Proof.
  intros Hit [Hfresh Hnodup Hrecv Hsub _]. split; try done.
  - intros sg it'. unfold _disconnect. rewrite receivers_disconnect. simpl.
    case_decide as Heq; [subst sg|apply Hrecv].
    intros Hin. apply remove_first_subseteq in Hin. by apply Hrecv.
  - intros it' Hin. specialize (Hsub _ Hin). unfold subscriptions in *.
    unfold _disconnect. rewrite receivers_disconnect. simpl in *.
    destruct (decide (it' = it)) as [->|Hne].
    + rewrite decide_True by done. rewrite occurrences_remove_first_same, Hsub. done.
    + case_decide as Heq; [|done]. rewrite Heq.
      rewrite occurrences_remove_first_other; [done|]. intros [= ->]. done.
  - intros it' [[= ->]|?]; done.
Qed.

Lemma invariant_write it s :
  invariant (Unsubscribed it) s ->
  invariant (Written it)
    (set_mapWindowProperty it (CheckBox_GetValue (widget it) s) s).
Proof.
  intros [Hfresh Hnodup Hrecv Hsub Hph]. rewrite set_mapWindowProperty_set.
  split; unfold subscriptions;
    try setoid_rewrite receivers_set; rewrite ?bound_set, ?next_widget_set; try done.
  intros it' [?|[= ->]]; [done|]. apply Hph. by left.
Qed.

Lemma invariant_resubscribe it s :
  invariant (Written it) s -> invariant Idle (post_toggle it (_connect it s)).
Proof.
  intros [Hfresh Hnodup Hrecv Hsub Hph].
  assert (Hit : it ∈ bound s) by (apply Hph; by right).
  destruct (post_toggle_rest it (_connect it s)) as (Hp & _ & Hb & Hn).
  split; unfold subscriptions; rewrite ?Hp, ?Hb, ?Hn; try done.
  - intros sg it'. unfold _connect. rewrite receivers_connect. simpl.
    case_decide as Heq; [subst sg|apply Hrecv].
    rewrite elem_of_app, list_elem_of_singleton. intros [Hin|[= ->]]; [|done].
    by apply Hrecv.
  - intros it' Hin. specialize (Hsub _ Hin). unfold subscriptions in *.
    unfold _connect. rewrite receivers_connect. simpl in *.
    destruct (decide (it' = it)) as [->|Hne].
    + rewrite decide_True by done.
      rewrite occurrences_app, Hsub. simpl. by rewrite decide_True.
    + case_decide as Heq; [|done]. rewrite Heq, occurrences_app, Hsub. simpl.
      rewrite decide_False; [done|]. intros [= ->]. done.
  - intros it' [?|?]; done.
Qed.

Lemma invariant_step ph s ph' s' :
  step (ph, s) (ph', s') -> invariant ph s -> invariant ph' s'.
Proof.
  intros Hstep Hinv. inversion Hstep; subst.
  - by apply invariant_construct.
  - by apply invariant_external.
  - by apply invariant_unsubscribe.
  - by apply invariant_write.
  - by apply invariant_resubscribe.
Qed.

Lemma reachable_invariant ph s : reachable ph s -> invariant ph s.
Proof.
  intros (st & Hout & Hrun).
  change (invariant (ph, s).1 (ph, s).2). revert Hrun. generalize (ph, s).
  apply (rtc_ind_r (fun c => invariant c.1 c.2)).
  - by apply invariant_initial.
  - intros [ph1 s1] [ph2 s2] _ Hstep Hinv. simpl in *.
    by eapply invariant_step.
Qed.

(** A whole toggle is three steps of the transition system. *)
Lemma reachable_toggle it v s :
  reachable Idle s -> it ∈ bound s -> reachable Idle (user_toggle it v s).
Proof.
  intros (st & Hout & Hrun) Hit. exists st. split; [done|].
  unfold user_toggle. rewrite onToggleCheckBox_unfold.
  eapply rtc_r; [eapply rtc_r; [eapply rtc_r; [exact Hrun|]|]|].
  - by apply (step_unsubscribe it v).
  - apply step_write.
  - apply step_resubscribe.
Qed.

Lemma reachable_construct c s :
  reachable Idle s -> reachable Idle (__init__ c s).2.
Proof.
  intros (st & Hout & Hrun). exists st. split; [done|].
  eapply rtc_r; [exact Hrun|apply step_construct].
Qed.

Lemma reachable_external p v s :
  reachable Idle s -> reachable Idle (MapWindowProperties_set p v s).
Proof.
  intros (st & Hout & Hrun). exists st. split; [done|].
  eapply rtc_r; [exact Hrun|apply step_external].
Qed.

Lemma demo_store_outside ar : outside_only (demo_store ar).
Proof. intros []; simpl; repeat constructor. Qed.

Lemma createDisplayPage_reachable s :
  reachable Idle s -> reachable Idle (createDisplayPage s).
Proof. intros Hs. unfold createDisplayPage. by do 4 apply reachable_construct. Qed.

Lemma demo_state_reachable ar : reachable Idle (demo_state ar).
Proof.
  apply createDisplayPage_reachable.
  exists (demo_store ar). split; [apply demo_store_outside|apply rtc_refl].
Qed.

Lemma demo_two_dialogs_reachable ar : reachable Idle (demo_two_dialogs ar).
Proof. apply createDisplayPage_reachable, demo_state_reachable. Qed.

(** ** Consequences of the invariant *)

Lemma NoDup_fmap_eq {A B} (f : A -> B) (l : list A) x y :
  NoDup (f <$> l) -> x ∈ l -> y ∈ l -> f x = f y -> x = y.
Proof.
  induction l as [|a l IH]; simpl; intros Hnd Hx Hy Hf.
  - by apply elem_of_nil in Hx.
  - apply NoDup_cons in Hnd as [Ha Hnd].
    apply elem_of_cons in Hx as [->|Hx]; apply elem_of_cons in Hy as [->|Hy]; auto.
    + exfalso. apply Ha. rewrite Hf. by apply list_elem_of_fmap_2.
    + exfalso. apply Ha. rewrite <- Hf. by apply list_elem_of_fmap_2.
Qed.

Lemma filter_ne_all (h : Handler) l :
  occurrences h l = 0 -> filter (fun x => x ≠ h) l = l.
Proof.
  induction l as [|x l IH]; simpl; [done|]. intros Hocc.
  destruct (decide (x = h)); [lia|].
  rewrite filter_cons_True by done. by rewrite IH.
Qed.

Lemma remove_first_filter (h : Handler) l :
  occurrences h l <= 1 -> remove_first h l = filter (fun x => x ≠ h) l.
Proof.
  induction l as [|x l IH]; simpl; [done|]. intros Hocc.
  destruct (decide (x = h)) as [->|Hne].
  - rewrite filter_cons_False by (intros Hn; by apply Hn).
    rewrite filter_ne_all; [done|lia].
  - rewrite filter_cons_True by done. by rewrite IH.
Qed.

Section Invariant.
Variables (it : PropertyItem) (s : State).
Hypothesis Hinv : invariant Idle s.
Hypothesis Hit : it ∈ bound s.

Lemma idle_subscribed_once : subscriptions it s = 1.
Proof. by apply (inv_subscribed _ _ Hinv). Qed.

Lemma idle_others :
  remove_first (SetValueOf it)
    (receivers (mapWindowPropertyChanged it) (properties s)) = other_receivers it s.
Proof.
  apply remove_first_filter. pose proof idle_subscribed_once as H1.
  unfold subscriptions in H1. lia.
Qed.

(** No other receiver of the item's signal owns the item's checkbox. *)
Lemma idle_widget_private it' :
  SetValueOf it' ∈ other_receivers it s -> widget it' ≠ widget it.
Proof.
  unfold other_receivers. rewrite list_elem_of_filter. intros [Hne Hin] Hw.
  apply Hne. f_equal. apply (inv_receivers _ _ Hinv) in Hin as [Hin _].
  by apply (NoDup_fmap_eq widget (bound s)); [apply (inv_nodup _ _ Hinv)|..].
Qed.
End Invariant.

Lemma user_click_GetValue w v s : CheckBox_GetValue w (user_click w v s) = v.
Proof. unfold CheckBox_GetValue, user_click. simpl. by rewrite lookup_insert_eq. Qed.

(** The events of a user toggle. *)
Lemma user_toggle_trace it v s :
  trace (user_toggle it v s) =
    trace s ++ bracket_events it v (properties s)
      ++ redraw_events it
           (autoRender (properties
              (PropertyItem_onToggleCheckBox it (user_click (widget it) v s)))).
Proof. unfold user_toggle. by rewrite onToggleCheckBox_trace, user_click_GetValue. Qed.

Lemma user_toggle_get it v s q :
  get q (properties (user_toggle it v s)) =
    if decide (mapWindowPropertyChanged it = q) then v else get q (properties s).
Proof.
  unfold user_toggle.
  by rewrite onToggleCheckBox_properties, inherited_get, user_click_GetValue.
Qed.

Lemma user_toggle_checkbox it v s :
  invariant Idle s -> it ∈ bound s ->
  CheckBox_GetValue (widget it) (user_toggle it v s) = v.
Proof.
  intros Hinv Hit. unfold user_toggle, CheckBox_GetValue.
  rewrite onToggleCheckBox_checkboxes.
  change (CheckBox_GetValue (widget it)
            (PropertyItem_onToggleCheckBox it (user_click (widget it) v s)) = v).
  rewrite inherited_checkbox; [apply user_click_GetValue|].
  intros it'. change (properties (user_click (widget it) v s)) with (properties s).
  rewrite idle_others by done. by apply idle_widget_private.
Qed.

(** * The toggle protocol *)

(** C1.  Whatever the subclass of the item and whatever its checkbox
    displays, the calls the toggle handler makes on the store and on its
    signals are exactly three, in this order: disconnect the item's
    [_setValue] from the signal of its property, assign the value displayed
    by the checkbox to the property, connect the same handler again.  All
    the handler does besides is the delivery of the firing, between the
    write and the connect, and the redraw request of the two overriding
    subclasses, after the connect. *)
Theorem toggle_handler_steps (it : PropertyItem) (s : State) :
  protocol_steps (since s (_onToggleCheckBox it s)) =
    [EvDisconnect (mapWindowPropertyChanged it) (SetValueOf it);
     EvWrite (mapWindowPropertyChanged it) (CheckBox_GetValue (widget it) s);
     EvConnect (mapWindowPropertyChanged it) (SetValueOf it)]
  /\ since s (_onToggleCheckBox it s) =
       bracket_events it (CheckBox_GetValue (widget it) s) (properties s)
         ++ redraw_events it
              (autoRender (properties (PropertyItem_onToggleCheckBox it s))).
Proof.
  split; [|apply since_app, onToggleCheckBox_trace].
  rewrite (since_app _ _ _ (onToggleCheckBox_trace it s)).
  unfold protocol_steps. rewrite omap_app.
  fold (protocol_steps (bracket_events it (CheckBox_GetValue (widget it) s) (properties s))).
  rewrite bracket_protocol_steps.
  destruct (redraw_events_only it
    (autoRender (properties (PropertyItem_onToggleCheckBox it s))))
    as (_ & _ & _ & Hsteps & _).
  unfold protocol_steps in Hsteps. by rewrite Hsteps.
Qed.

(** C2.  In a state reached by the dialog, outside any handler, where the
    property of a bound item holds [negb v]: a user toggle of the item's
    checkbox to [v] ends with the checkbox displaying [v] and the property
    equal to [v]; the signal of the property fired exactly once, with [v];
    the firing was delivered to the other receivers of the signal, each
    once and in subscription order, and not to the item's own handler. *)
Theorem self_write_suppression (it : PropertyItem) (v : bool) (s : State) :
  reachable Idle s -> it ∈ bound s -> mapWindowProperty it s = negb v ->
  let s' := user_toggle it v s in
  CheckBox_GetValue (widget it) s' = v
  /\ mapWindowProperty it s' = v
  /\ emissions (since s s') = [(mapWindowPropertyChanged it, v)]
  /\ deliveries (since s s') = (fun h => (h, v)) <$> other_receivers it s
  /\ (forall h, h ∈ receivers (mapWindowPropertyChanged it) (properties s) ->
        h ≠ SetValueOf it -> (h, v) ∈ deliveries (since s s'))
  /\ (forall v', (SetValueOf it, v') ∉ deliveries (since s s')).
Proof.
  intros Hreach Hit _ s'. apply reachable_invariant in Hreach as Hinv.
  assert (Hdel : deliveries (since s s') = (fun h => (h, v)) <$> other_receivers it s).
  { unfold s'. rewrite (since_app _ _ _ (user_toggle_trace it v s)).
    unfold deliveries. rewrite omap_app.
    fold (deliveries (bracket_events it v (properties s))).
    rewrite bracket_deliveries, idle_others by done.
    destruct (redraw_events_only it (autoRender (properties
      (PropertyItem_onToggleCheckBox it (user_click (widget it) v s)))))
      as (_ & _ & Hd & _).
    unfold deliveries in Hd. rewrite Hd. by rewrite app_nil_r. }
  split; [by apply user_toggle_checkbox|].
  split; [unfold s'; by rewrite mapWindowProperty_get, user_toggle_get, decide_True|].
  split.
  { unfold s'. rewrite (since_app _ _ _ (user_toggle_trace it v s)).
    unfold emissions. rewrite omap_app.
    fold (emissions (bracket_events it v (properties s))).
    rewrite bracket_emissions.
    destruct (redraw_events_only it (autoRender (properties
      (PropertyItem_onToggleCheckBox it (user_click (widget it) v s)))))
      as (_ & He & _).
    unfold emissions in He. by rewrite He. }
  split; [done|]. rewrite Hdel. split.
  - intros h Hin Hne. apply (list_elem_of_fmap_2 (fun h => (h, v))).
    unfold other_receivers. by rewrite list_elem_of_filter.
  - intros v' Hin. apply list_elem_of_fmap in Hin as (h & [= <- _] & Hin).
    unfold other_receivers in Hin. apply list_elem_of_filter in Hin as [Hne _]. done.
Qed.

(** C3.  In a state reached by the dialog, outside any handler, a user
    toggle of a bound item's checkbox to [v] writes the store exactly once
    (the item's property, with [v]); during the toggle nothing sets the
    item's checkbox programmatically, and the checkbox ends displaying [v]. *)
Theorem no_feedback_loop (it : PropertyItem) (v : bool) (s : State) :
  reachable Idle s -> it ∈ bound s ->
  let s' := user_toggle it v s in
  writes (since s s') = [(mapWindowPropertyChanged it, v)]
  /\ widget_sets (widget it) (since s s') = []
  /\ CheckBox_GetValue (widget it) s' = v.
Proof.
  intros Hreach Hit s'. apply reachable_invariant in Hreach as Hinv.
  unfold s'. rewrite (since_app _ _ _ (user_toggle_trace it v s)).
  destruct (redraw_events_only it (autoRender (properties
    (PropertyItem_onToggleCheckBox it (user_click (widget it) v s)))))
    as (Hw & _ & _ & _ & Hs).
  split; [|split].
  - unfold writes in *. rewrite omap_app, Hw.
    fold (writes (bracket_events it v (properties s))). by rewrite bracket_writes.
  - specialize (Hs (widget it)). unfold widget_sets in *. rewrite omap_app, Hs.
    fold (widget_sets (widget it) (bracket_events it v (properties s))).
    rewrite bracket_widget_sets; [done|].
    intros it'. rewrite idle_others by done. by apply idle_widget_private.
  - by apply user_toggle_checkbox.
Qed.

(** C4.  A write [store.p = v] from outside the dialog makes every item
    whose handler is connected to the signal of [p] display [v]; the only
    write to the store is the outside one, and the signal fires once. *)
Theorem external_change_propagation (p : Name) (v : bool) (s : State)
    (it : PropertyItem) :
  SetValueOf it ∈ receivers p (properties s) ->
  let s' := MapWindowProperties_set p v s in
  CheckBox_GetValue (widget it) s' = v
  /\ (SetValueOf it, v) ∈ deliveries (since s s')
  /\ writes (since s s') = [(p, v)]
  /\ emissions (since s s') = [(p, v)]
  /\ get p (properties s') = v.
Proof.
  intros Hin s'. unfold s'. rewrite (since_app _ _ _ (trace_set p v s)).
  split; [by apply checkbox_set_mine|]. split; [|split; [|split]].
  - change (deliveries (?a :: ?b :: ?l)) with (deliveries l).
    rewrite deliveries_calls. by apply (list_elem_of_fmap_2 (fun h => (h, v))).
  - change (writes (?a :: ?b :: ?l)) with ((p, v) :: writes l).
    by rewrite writes_calls.
  - change (emissions (?a :: ?b :: ?l)) with ((p, v) :: emissions l).
    by rewrite emissions_calls.
  - by rewrite get_set, decide_True.
Qed.

(** * Redraw requests *)

Lemma user_toggle_redraws it v s :
  redraws (since s (user_toggle it v s)) =
    redraws (redraw_events it
      (autoRender (properties
         (PropertyItem_onToggleCheckBox it (user_click (widget it) v s))))).
Proof.
  rewrite (since_app _ _ _ (user_toggle_trace it v s)).
  unfold redraws. rewrite omap_app.
  fold (redraws (bracket_events it v (properties s))). by rewrite bracket_redraws.
Qed.

(** C5.  A user toggle of a resolution item requests one redraw, without
    the [render] keyword and hence a full re-render, when [autoRender] is
    true at the check that follows the inherited handler, and requests none
    when it is false; the flag is then what it was before the toggle. *)
Theorem resolution_redraw (it : PropertyItem) (v : bool) (s : State) :
  cls it = ChBResolution ->
  let checked := PropertyItem_onToggleCheckBox it (user_click (widget it) v s) in
  redraws (since s (user_toggle it v s)) =
    (if autoRender (properties checked) then [None] else [])
  /\ fullRerender None = true
  /\ autoRender (properties checked) = autoRender (properties s).
Proof.
  intros Hcls checked. split; [|split; [done|]].
  - rewrite user_toggle_redraws. fold checked. unfold redraw_events. rewrite Hcls.
    by destruct (autoRender (properties checked)).
  - unfold checked. rewrite !autoRender_get, inherited_get.
    unfold mapWindowPropertyChanged. by rewrite Hcls.
Qed.

(** C6.  A user toggle of a show-region item requests one redraw with
    [render=False], hence not a full re-render, when [autoRender] is true
    at the check that follows the inherited handler, and requests none when
    it is false; the flag is then what it was before the toggle. *)
Theorem show_region_redraw (it : PropertyItem) (v : bool) (s : State) :
  cls it = ChBShowRegion ->
  let checked := PropertyItem_onToggleCheckBox it (user_click (widget it) v s) in
  redraws (since s (user_toggle it v s)) =
    (if autoRender (properties checked) then [Some false] else [])
  /\ fullRerender (Some false) = false
  /\ autoRender (properties checked) = autoRender (properties s).
Proof.
  intros Hcls checked. split; [|split; [done|]].
  - rewrite user_toggle_redraws. fold checked. unfold redraw_events. rewrite Hcls.
    by destruct (autoRender (properties checked)).
  - unfold checked. rewrite !autoRender_get, inherited_get.
    unfold mapWindowPropertyChanged. by rewrite Hcls.
Qed.

(** C8.  A user toggle of a render item or of an align-extent item requests
    no redraw, whatever the store holds. *)
Theorem render_and_align_never_redraw (it : PropertyItem) (v : bool) (s : State) :
  cls it = ChBRender \/ cls it = ChBAlignExtent ->
  redraws (since s (user_toggle it v s)) = [].
Proof.
  intros Hcls. rewrite user_toggle_redraws. unfold redraw_events.
  by destruct Hcls as [-> | ->].
Qed.

(** * Construction *)

(** C7.  Constructing an item of any of the four classes while its property
    holds [v] leaves the new checkbox displaying [v]; the construction is a
    seeding [SetValue(v)] followed by the connect of the handler, and no
    signal fires. *)
Theorem idempotent_seeding (c : ItemClass) (v : bool) (s : State) :
  let it := (__init__ c s).1 in
  let s' := (__init__ c s).2 in
  mapWindowProperty it s = v ->
  CheckBox_GetValue (widget it) s' = v
  /\ emissions (since s s') = []
  /\ since s s' = [EvSetValue (widget it) v;
                   EvConnect (mapWindowPropertyChanged it) (SetValueOf it)].
Proof.
  intros it s' Hv. unfold it, s'.
  rewrite (since_app _ _ _ (init_trace c s)), init_checkbox.
  fold it. by rewrite Hv.
Qed.

(** * Subscriptions *)

(** The three program points of a toggle are states of the transition
    system. *)
Lemma toggle_phases it v s :
  reachable Idle s -> it ∈ bound s ->
  let s1 := _disconnect it (user_click (widget it) v s) in
  let s2 := set_mapWindowProperty it (CheckBox_GetValue (widget it) s1) s1 in
  reachable (Unsubscribed it) s1 /\ reachable (Written it) s2
  /\ user_toggle it v s = post_toggle it (_connect it s2).
Proof.
  intros (st & Hout & Hrun) Hit s1 s2.
  assert (Hrun1 : rtc step (Idle, initial_state st) (Unsubscribed it, s1)).
  { eapply rtc_r; [exact Hrun|]. by apply step_unsubscribe. }
  split; [by exists st|]. split.
  - exists st. split; [done|]. eapply rtc_r; [exact Hrun1|]. apply step_write.
  - unfold user_toggle. by rewrite onToggleCheckBox_unfold.
Qed.

(** C9.  In every state of every run (construction of items, user toggles,
    outside writes, in any order) the handler of a bound item is connected
    to the signal of its property once when the item is [Subscribed], that
    is outside its own toggle handler, and not at all when it is
    [Updating], that is between the disconnect and the connect of its own
    toggle handler; it is never connected twice, nor to another signal. *)
Theorem single_subscription (ph : Phase) (s : State) (it : PropertyItem) :
  reachable ph s -> it ∈ bound s ->
  subscriptions it s =
    match binding_state ph it with Subscribed => 1 | Updating => 0 end
  /\ subscriptions it s <= 1
  /\ forall sg, sg ≠ mapWindowPropertyChanged it ->
       SetValueOf it ∉ receivers sg (properties s).
Proof.
  intros Hreach Hit. apply reachable_invariant in Hreach as Hinv.
  pose proof (inv_subscribed _ _ Hinv it Hit) as Hsub.
  split; [done|]. split.
  - rewrite Hsub. destruct (binding_state ph it); lia.
  - intros sg Hne Hin. apply (inv_receivers _ _ Hinv) in Hin as [_ Heq]. by apply Hne.
Qed.

(** * Frame *)

(** C10.  A user toggle of an item leaves every property other than the
    item's own at its value, after the inherited handler and after what the
    subclass adds; the one write of the toggle is to the item's property. *)
Theorem toggle_frame (it : PropertyItem) (v : bool) (s : State) (p : Name) :
  p ≠ mapWindowPropertyChanged it ->
  get p (properties (PropertyItem_onToggleCheckBox it (user_click (widget it) v s)))
    = get p (properties s)
  /\ get p (properties (user_toggle it v s)) = get p (properties s)
  /\ writes (since s (user_toggle it v s)) = [(mapWindowPropertyChanged it, v)].
Proof.
  intros Hne. split; [|split].
  - rewrite inherited_get. by rewrite decide_False.
  - rewrite user_toggle_get. by rewrite decide_False.
  - rewrite (since_app _ _ _ (user_toggle_trace it v s)).
    destruct (redraw_events_only it (autoRender (properties
      (PropertyItem_onToggleCheckBox it (user_click (widget it) v s)))))
      as (Hw & _).
    unfold writes in *. rewrite omap_app, Hw.
    fold (writes (bracket_events it v (properties s))). by rewrite bracket_writes.
Qed.

(** * The theorems at work on the demo dialog *)

Lemma demo_state_bound ar :
  bound (demo_state ar) =
    [{| cls := ChBRender; widget := 0 |}; {| cls := ChBAlignExtent; widget := 1 |};
     {| cls := ChBResolution; widget := 2 |}; {| cls := ChBShowRegion; widget := 3 |}].
Proof. lazy. reflexivity. Qed.

Lemma demo_two_dialogs_bound ar :
  bound (demo_two_dialogs ar) =
    bound (demo_state ar) ++
    [{| cls := ChBRender; widget := 4 |}; {| cls := ChBAlignExtent; widget := 5 |};
     {| cls := ChBResolution; widget := 6 |}; {| cls := ChBShowRegion; widget := 7 |}].
Proof. lazy. reflexivity. Qed.

Lemma demo_two_dialogs_autoRenderChanged ar :
  receivers AutoRender (properties (demo_two_dialogs ar)) =
    [Observer 0; SetValueOf {| cls := ChBRender; widget := 0 |};
     SetValueOf {| cls := ChBRender; widget := 4 |}].
Proof. lazy. reflexivity. Qed.

Lemma bound_disconnect_click it v s :
  bound (_disconnect it (user_click (widget it) v s)) = bound s.
Proof. reflexivity. Qed.

Lemma self_write_suppression_witness :
  let it := {| cls := ChBResolution; widget := 2 |} in
  let s := demo_two_dialogs false in
  let s' := user_toggle it true s in
  (reachable Idle s /\ it ∈ bound s /\ mapWindowProperty it s = negb true)
  /\ CheckBox_GetValue 2 s' = true
  /\ emissions (since s s') = [(Resolution, true)]
  /\ deliveries (since s s') = (fun h => (h, true)) <$> other_receivers it s.
Proof.
  intros it s s'.
  assert (Hr : reachable Idle s) by apply demo_two_dialogs_reachable.
  assert (Hb : it ∈ bound s).
  { unfold s. rewrite demo_two_dialogs_bound, demo_state_bound. set_solver. }
  assert (Hp : mapWindowProperty it s = negb true) by reflexivity.
  split; [done|].
  destruct (self_write_suppression it true s Hr Hb Hp) as (H1 & _ & H3 & H4 & _).
  split; [exact H1|]. split; [exact H3|exact H4].
Defined.

Lemma no_feedback_loop_witness :
  let it := {| cls := ChBShowRegion; widget := 3 |} in
  let s := demo_two_dialogs true in
  let s' := user_toggle it true s in
  (reachable Idle s /\ it ∈ bound s)
  /\ writes (since s s') = [(ShowRegion, true)]
  /\ widget_sets 3 (since s s') = []
  /\ CheckBox_GetValue 3 s' = true.
Proof.
  intros it s s'.
  assert (Hr : reachable Idle s) by apply demo_two_dialogs_reachable.
  assert (Hb : it ∈ bound s).
  { unfold s. rewrite demo_two_dialogs_bound, demo_state_bound. set_solver. }
  split; [done|]. exact (no_feedback_loop it true s Hr Hb).
Defined.

Lemma external_change_propagation_witness :
  let it := {| cls := ChBRender; widget := 4 |} in
  let s := demo_two_dialogs false in
  let s' := MapWindowProperties_set AutoRender true s in
  SetValueOf it ∈ receivers AutoRender (properties s)
  /\ CheckBox_GetValue 4 s' = true
  /\ writes (since s s') = [(AutoRender, true)].
Proof.
  intros it s s'.
  assert (Hin : SetValueOf it ∈ receivers AutoRender (properties s)).
  { unfold s. rewrite demo_two_dialogs_autoRenderChanged. set_solver. }
  split; [done|].
  destruct (external_change_propagation AutoRender true s it Hin) as (H1 & _ & H3 & _).
  split; [exact H1|exact H3].
Defined.

Lemma resolution_redraw_witness :
  let it := {| cls := ChBResolution; widget := 2 |} in
  cls it = ChBResolution
  /\ redraws (since (demo_state true) (user_toggle it true (demo_state true))) = [None]
  /\ redraws (since (demo_state false) (user_toggle it true (demo_state false))) = [].
Proof.
  intros it. assert (Hc : cls it = ChBResolution) by reflexivity.
  split; [done|]. split.
  - destruct (resolution_redraw it true (demo_state true) Hc) as (H1 & _). exact H1.
  - destruct (resolution_redraw it true (demo_state false) Hc) as (H1 & _). exact H1.
Defined.

Lemma show_region_redraw_witness :
  let it := {| cls := ChBShowRegion; widget := 3 |} in
  cls it = ChBShowRegion
  /\ redraws (since (demo_state true) (user_toggle it true (demo_state true)))
       = [Some false]
  /\ redraws (since (demo_state false) (user_toggle it true (demo_state false))) = [].
Proof.
  intros it. assert (Hc : cls it = ChBShowRegion) by reflexivity.
  split; [done|]. split.
  - destruct (show_region_redraw it true (demo_state true) Hc) as (H1 & _). exact H1.
  - destruct (show_region_redraw it true (demo_state false) Hc) as (H1 & _). exact H1.
Defined.

Lemma render_and_align_never_redraw_witness :
  let it := {| cls := ChBRender; widget := 0 |} in
  (cls it = ChBRender \/ cls it = ChBAlignExtent)
  /\ redraws (since (demo_state true) (user_toggle it false (demo_state true))) = []
  /\ redraws (since (demo_state false) (user_toggle it true (demo_state false))) = [].
Proof.
  intros it. assert (Hc : cls it = ChBRender \/ cls it = ChBAlignExtent) by (left; reflexivity).
  split; [done|]. split.
  - exact (render_and_align_never_redraw it false (demo_state true) Hc).
  - exact (render_and_align_never_redraw it true (demo_state false) Hc).
Defined.

Lemma idempotent_seeding_witness :
  let s := initial_state (demo_store true) in
  mapWindowProperty (__init__ ChBRender s).1 s = true
  /\ CheckBox_GetValue 0 (__init__ ChBRender s).2 = true
  /\ emissions (since s (__init__ ChBRender s).2) = [].
Proof.
  intros s.
  assert (Hv : mapWindowProperty (__init__ ChBRender s).1 s = true) by reflexivity.
  split; [done|].
  destruct (idempotent_seeding ChBRender true s Hv) as (H1 & H2 & _).
  split; [exact H1|exact H2].
Defined.

Lemma single_subscription_witness :
  let it := {| cls := ChBResolution; widget := 2 |} in
  let s := demo_state false in
  let s1 := _disconnect it (user_click (widget it) true s) in
  let s2 := set_mapWindowProperty it (CheckBox_GetValue (widget it) s1) s1 in
  (reachable (Written it) s2 /\ it ∈ bound s2)
  /\ subscriptions it s2 = 0.
Proof.
  intros it s s1 s2.
  assert (Hb : it ∈ bound s).
  { unfold s. rewrite demo_state_bound. set_solver. }
  assert (Hb2 : it ∈ bound s2).
  { unfold s2, s1. rewrite set_mapWindowProperty_set, bound_set.
    rewrite bound_disconnect_click. exact Hb. }
  assert (Hr : reachable (Written it) s2).
  { destruct (toggle_phases it true s (demo_state_reachable false) Hb) as (_ & H2 & _).
    exact H2. }
  split; [done|].
  destruct (single_subscription (Written it) s2 it Hr Hb2) as (H1 & _).
  rewrite H1. unfold binding_state. by rewrite decide_True.
Defined.

Lemma toggle_frame_witness :
  let it := {| cls := ChBRender; widget := 0 |} in
  let s := demo_state false in
  Resolution ≠ mapWindowPropertyChanged it
  /\ get Resolution (properties (user_toggle it true s)) = get Resolution (properties s)
  /\ writes (since s (user_toggle it true s)) = [(AutoRender, true)].
Proof.
  intros it s.
  assert (Hne : Resolution ≠ mapWindowPropertyChanged it) by done.
  split; [done|].
  destruct (toggle_frame it true s Resolution Hne) as (_ & H2 & H3).
  split; [exact H2|exact H3].
Defined.

(** The scenario of the specification: all flags false, the four items
    constructed, then the render checkbox and the resolution checkbox
    toggled to true. *)
Example scenario :
  let all_false := {| autoRender := false;  autoRenderChanged := [];
                      alignExtent := false; alignExtentChanged := [];
                      resolution := false;  resolutionChanged := [];
                      showRegion := false;  showRegionChanged := [] |} in
  let s0 := initial_state all_false in
  let s1 := createDisplayPage s0 in
  let s2 := user_toggle {| cls := ChBRender; widget := 0 |} true s1 in
  let s3 := user_toggle {| cls := ChBResolution; widget := 2 |} true s2 in
  (fun w => CheckBox_GetValue w s1) <$> [0; 1; 2; 3] = [false; false; false; false]
  /\ emissions (since s0 s1) = []
  /\ autoRender (properties s2) = true /\ redraws (since s1 s2) = []
  /\ resolution (properties s3) = true /\ redraws (since s2 s3) = [None].
Proof. vm_compute. repeat split. Qed.

(** * Checkboxes and flags in step *)

Lemma occurrences_elem h l : 0 < occurrences h l -> h ∈ l.
Proof.
  induction l as [|x l IH]; simpl; [lia|].
  destruct (decide (x = h)) as [->|Hne]; [left|]. intros Hpos. right. apply IH. lia.
Qed.

Lemma init_checkbox_other c s w :
  w ≠ next_widget s ->
  CheckBox_GetValue w (__init__ c s).2 = CheckBox_GetValue w s.
Proof.
  intros Hne. unfold __init__, CheckBox_GetValue. simpl.
  by rewrite !lookup_insert_ne.
Qed.

Lemma init_mapWindowProperty c s it :
  mapWindowProperty it (__init__ c s).2 = mapWindowProperty it s.
Proof. by rewrite !mapWindowProperty_get, init_get. Qed.

(** Two bound items with one signal or one checkbox. *)
Lemma bound_widget_ne ph s it it' :
  invariant ph s -> it ∈ bound s -> it' ∈ bound s -> it' ≠ it ->
  widget it' ≠ widget it.
Proof.
  intros Hinv Hit Hit' Hne Hw. apply Hne.
  by apply (NoDup_fmap_eq widget (bound s)); [apply (inv_nodup _ _ Hinv)|..].
Qed.

Lemma synchronized_construct c s :
  invariant Idle s -> synchronized Idle s -> synchronized Idle (__init__ c s).2.
Proof.
  intros Hinv Hsync it. rewrite init_bound, elem_of_app, list_elem_of_singleton.
  unfold displays_flag, GetWidget. intros [Hit| ->] _.
  - rewrite init_checkbox_other, init_mapWindowProperty; [by apply Hsync|].
    apply (inv_fresh _ _ Hinv) in Hit. lia.
  - rewrite init_checkbox. by rewrite init_mapWindowProperty.
Qed.

Lemma synchronized_external p v s :
  invariant Idle s -> synchronized Idle s ->
  synchronized Idle (MapWindowProperties_set p v s).
Proof.
  intros Hinv Hsync it. rewrite bound_set. intros Hit _.
  unfold displays_flag, GetWidget. rewrite mapWindowProperty_get, get_set.
  destruct (decide (p = mapWindowPropertyChanged it)) as [->|Hne].
  - apply checkbox_set_mine. apply occurrences_elem.
    pose proof (inv_subscribed _ _ Hinv it Hit) as Hsub.
    unfold subscriptions in Hsub. simpl in Hsub. lia.
  - rewrite checkbox_set_other.
    + rewrite <- mapWindowProperty_get. by apply Hsync.
    + intros it' Hin Hw. apply (inv_receivers _ _ Hinv) in Hin as [Hin Hsg].
      apply Hne. rewrite <- Hsg. f_equal.
      by apply (NoDup_fmap_eq widget (bound s)); [apply (inv_nodup _ _ Hinv)|..].
Qed.

Lemma synchronized_unsubscribe it v s :
  it ∈ bound s -> invariant Idle s -> synchronized Idle s ->
  synchronized (Unsubscribed it) (_disconnect it (user_click (widget it) v s)).
Proof.
  intros Hit Hinv Hsync it' Hit' Hph.
  assert (Hne : it' ≠ it) by (intros ->; by apply Hph).
  unfold displays_flag, GetWidget, CheckBox_GetValue. simpl.
  rewrite lookup_insert_ne by (by apply not_eq_sym, (bound_widget_ne Idle s)).
  rewrite mapWindowProperty_get. unfold _disconnect. rewrite get_disconnect.
  simpl. rewrite <- mapWindowProperty_get. by apply Hsync.
Qed.

Lemma synchronized_write it s :
  invariant (Unsubscribed it) s -> synchronized (Unsubscribed it) s ->
  synchronized (Written it)
    (set_mapWindowProperty it (CheckBox_GetValue (widget it) s) s).
Proof.
  intros Hinv Hsync it'. rewrite set_mapWindowProperty_set, bound_set.
  intros Hit' _. unfold displays_flag, GetWidget.
  assert (Hit : it ∈ bound s) by (apply (inv_phase _ _ Hinv); by left).
  pose proof (inv_subscribed _ _ Hinv it' Hit') as Hsub.
  unfold subscriptions, binding_state in Hsub.
  rewrite mapWindowProperty_get, get_set.
  destruct (decide (it' = it)) as [->|Hne].
  - rewrite decide_True by done. apply checkbox_set_other.
    intros it' Hin Hw. pose proof Hin as Hin'.
    apply (inv_receivers _ _ Hinv) in Hin' as [Hb _].
    assert (it' = it) as ->
      by (by apply (NoDup_fmap_eq widget (bound s)); [apply (inv_nodup _ _ Hinv)|..]).
    apply occurrences_pos in Hin. lia.
  - destruct (decide (mapWindowPropertyChanged it = mapWindowPropertyChanged it'))
      as [Heq|Hsg].
    + apply checkbox_set_mine. rewrite Heq. apply occurrences_elem. lia.
    + rewrite checkbox_set_other.
      * rewrite <- mapWindowProperty_get. apply Hsync; [done|]. by intros [= ->].
      * intros it2 Hin Hw. apply (inv_receivers _ _ Hinv) in Hin as [Hin Hsg2].
        apply Hsg. rewrite <- Hsg2. f_equal. symmetry.
        by apply (NoDup_fmap_eq widget (bound s)); [apply (inv_nodup _ _ Hinv)|..].
Qed.

Lemma synchronized_resubscribe it s :
  synchronized (Written it) s -> synchronized Idle (post_toggle it (_connect it s)).
Proof.
  intros Hsync it'.
  destruct (post_toggle_rest it (_connect it s)) as (Hp & Hc & Hb & _).
  rewrite Hb. intros Hit' _. unfold displays_flag, GetWidget, CheckBox_GetValue.
  rewrite Hc, mapWindowProperty_get, Hp. unfold _connect. rewrite get_connect.
  rewrite <- mapWindowProperty_get. by apply Hsync.
Qed.

Lemma synchronized_step ph s ph' s' :
  step (ph, s) (ph', s') -> invariant ph s -> synchronized ph s ->
  synchronized ph' s'.
Proof.
  intros Hstep Hinv Hsync. inversion Hstep; subst.
  - by apply synchronized_construct.
  - by apply synchronized_external.
  - by apply synchronized_unsubscribe.
  - by apply synchronized_write.
  - by apply synchronized_resubscribe.
Qed.

Lemma reachable_synchronized ph s : reachable ph s -> synchronized ph s.
Proof.
  intros (st & Hout & Hrun).
  cut (invariant (ph, s).1 (ph, s).2 /\ synchronized (ph, s).1 (ph, s).2);
    [by intros [_ ?]|].
  revert Hrun. generalize (ph, s).
  apply (rtc_ind_r (fun c => invariant c.1 c.2 /\ synchronized c.1 c.2)).
  - split; [by apply invariant_initial|]. intros it Hit. by apply elem_of_nil in Hit.
  - intros [ph1 s1] [ph2 s2] _ Hstep [Hinv Hsync]. simpl in *. split.
    + by eapply invariant_step.
    + by eapply synchronized_step.
Qed.

Lemma signal_of_class it it' :
  mapWindowPropertyChanged it = mapWindowPropertyChanged it' <-> cls it = cls it'.
Proof.
  unfold mapWindowPropertyChanged. split.
  - by destruct (cls it), (cls it').
  - by intros ->.
Qed.

Lemma user_toggle_bound it v s : bound (user_toggle it v s) = bound s.
Proof.
  unfold user_toggle. rewrite onToggleCheckBox_post.
  destruct (post_toggle_rest it
    (PropertyItem_onToggleCheckBox it (user_click (widget it) v s))) as (_ & _ & -> & _).
  by rewrite inherited_bound.
Qed.

Lemma user_toggle_receivers it v s sg :
  receivers sg (properties (user_toggle it v s)) =
    if decide (mapWindowPropertyChanged it = sg)
    then remove_first (SetValueOf it)
           (receivers (mapWindowPropertyChanged it) (properties s)) ++ [SetValueOf it]
    else receivers sg (properties s).
Proof.
  unfold user_toggle. by rewrite onToggleCheckBox_properties, inherited_receivers.
Qed.

Lemma user_toggle_writes it v s ar :
  writes (bracket_events it v (properties s) ++ redraw_events it ar) =
    [(mapWindowPropertyChanged it, v)].
Proof.
  destruct (redraw_events_only it ar) as (Hw & _).
  unfold writes in *. rewrite omap_app, Hw.
  fold (writes (bracket_events it v (properties s))). by rewrite bracket_writes.
Qed.

Lemma remove_first_perm (h : Handler) l : h ∈ l -> l ≡ₚ remove_first h l ++ [h].
Proof.
  induction l as [|x l IH]; simpl; intros Hin.
  - by apply elem_of_nil in Hin.
  - destruct (decide (x = h)) as [->|Hne].
    + by rewrite Permutation_app_comm.
    + apply elem_of_cons in Hin as [?|Hin]; [congruence|].
      simpl. by rewrite <- IH.
Qed.

(** X1.  In every state of every run, each bound item's checkbox displays
    the flag the item stands for; the one exception is the item whose own
    toggle handler has disconnected and not yet written. *)
Theorem checkboxes_follow_flags (ph : Phase) (s : State) (it : PropertyItem) :
  reachable ph s -> it ∈ bound s -> ph ≠ Unsubscribed it ->
  CheckBox_GetValue (GetWidget it) s = mapWindowProperty it s.
Proof. intros Hreach Hit Hph. by apply (reachable_synchronized ph s). Qed.

(** X2.  A user toggle of an item to [v] makes the checkbox of every bound
    item of the same class display [v], in whichever dialog it sits, and
    leaves the checkboxes of the items of the other classes as they were. *)
Theorem toggle_reaches_every_dialog (it it' : PropertyItem) (v : bool) (s : State) :
  reachable Idle s -> it ∈ bound s -> it' ∈ bound s ->
  CheckBox_GetValue (GetWidget it') (user_toggle it v s) =
    if decide (cls it' = cls it) then v else CheckBox_GetValue (GetWidget it') s.
Proof.
  intros Hreach Hit Hit'.
  pose proof (reachable_synchronized _ _ (reachable_toggle it v s Hreach Hit)) as Hafter.
  pose proof (reachable_synchronized _ _ Hreach) as Hbefore.
  unfold synchronized, displays_flag in *.
  rewrite Hafter by (by rewrite ?user_toggle_bound).
  rewrite Hbefore by done. rewrite !mapWindowProperty_get, user_toggle_get.
  destruct (decide (cls it' = cls it)) as [Heq|Hne].
  - rewrite decide_True; [done|]. by apply signal_of_class.
  - rewrite decide_False; [done|]. intros Heq. apply Hne. symmetry.
    by apply signal_of_class.
Qed.

(** X3.  An outside write of [v] to flag [p] makes the checkbox of every
    bound item of that flag display [v] and leaves every other bound item's
    checkbox as it was. *)
Theorem outside_write_reaches_only_its_flag (p : Name) (v : bool) (s : State)
    (it : PropertyItem) :
  reachable Idle s -> it ∈ bound s ->
  CheckBox_GetValue (GetWidget it) (MapWindowProperties_set p v s) =
    if decide (mapWindowPropertyChanged it = p) then v
    else CheckBox_GetValue (GetWidget it) s.
Proof.
  intros Hreach Hit.
  pose proof (reachable_synchronized _ _ (reachable_external p v s Hreach)) as Hafter.
  pose proof (reachable_synchronized _ _ Hreach) as Hbefore.
  unfold synchronized, displays_flag in *.
  rewrite Hafter by (by rewrite ?bound_set).
  rewrite Hbefore by done. rewrite !mapWindowProperty_get, get_set.
  destruct (decide (mapWindowPropertyChanged it = p)) as [Heq|Hne].
  - by rewrite decide_True.
  - rewrite decide_False; [done|]. by intros ->.
Qed.

(** X4.  A user toggle takes the item's handler out of its place in the
    receivers of its signal and puts it last; the other receivers keep
    their order, the receivers of the other signals are untouched, and no
    signal gains or loses a receiver. *)
Theorem toggle_moves_handler_last (it : PropertyItem) (v : bool) (s : State) :
  reachable Idle s -> it ∈ bound s ->
  let s' := user_toggle it v s in
  receivers (mapWindowPropertyChanged it) (properties s') =
    other_receivers it s ++ [SetValueOf it]
  /\ (forall sg, sg ≠ mapWindowPropertyChanged it ->
        receivers sg (properties s') = receivers sg (properties s))
  /\ (forall sg, receivers sg (properties s') ≡ₚ receivers sg (properties s)).
Proof.
  intros Hreach Hit s'. apply reachable_invariant in Hreach as Hinv.
  assert (Hown : receivers (mapWindowPropertyChanged it) (properties s') =
                 other_receivers it s ++ [SetValueOf it]).
  { unfold s'. rewrite user_toggle_receivers, decide_True by done.
    by rewrite idle_others. }
  assert (Hother : forall sg, sg ≠ mapWindowPropertyChanged it ->
            receivers sg (properties s') = receivers sg (properties s)).
  { intros sg Hne. unfold s'. rewrite user_toggle_receivers.
    by rewrite decide_False by (by apply not_eq_sym). }
  split; [done|]. split; [done|]. intros sg.
  destruct (decide (sg = mapWindowPropertyChanged it)) as [->|Hne];
    [|by rewrite Hother].
  rewrite Hown, <- idle_others by done. symmetry. apply remove_first_perm.
  apply occurrences_elem. pose proof (idle_subscribed_once it s Hinv Hit) as H1.
  unfold subscriptions in H1. lia.
Qed.

(** X5.  Toggling a checkbox to [v] and back to [negb v] restores the four
    flags and the display of every bound checkbox; the store was written
    twice, both times the item's own flag. *)
Theorem toggle_back_restores (it : PropertyItem) (v : bool) (s : State) :
  reachable Idle s -> it ∈ bound s -> mapWindowProperty it s = negb v ->
  let s2 := user_toggle it (negb v) (user_toggle it v s) in
  (forall p, get p (properties s2) = get p (properties s))
  /\ (forall it', it' ∈ bound s ->
        CheckBox_GetValue (GetWidget it') s2 = CheckBox_GetValue (GetWidget it') s)
  /\ writes (since s s2) =
       [(mapWindowPropertyChanged it, v); (mapWindowPropertyChanged it, negb v)].
Proof.
  intros Hreach Hit Hold s2.
  assert (Hget : forall p, get p (properties s2) = get p (properties s)).
  { intros p. unfold s2. rewrite !user_toggle_get.
    case_decide as Heq; [|done]. subst p. by rewrite <- mapWindowProperty_get. }
  split; [done|]. split.
  - intros it' Hit'.
    pose proof (reachable_toggle it v s Hreach Hit) as Hreach1.
    assert (Hit1 : it ∈ bound (user_toggle it v s)) by (by rewrite user_toggle_bound).
    pose proof (reachable_synchronized _ _
                  (reachable_toggle it (negb v) _ Hreach1 Hit1)) as Hafter.
    pose proof (reachable_synchronized _ _ Hreach) as Hbefore.
    unfold synchronized, displays_flag in *. fold s2 in Hafter.
    rewrite Hafter by (by unfold s2; rewrite ?user_toggle_bound).
    rewrite Hbefore by done. by rewrite !mapWindowProperty_get, Hget.
  - unfold s2, since.
    rewrite (user_toggle_trace it (negb v)), (user_toggle_trace it v).
    rewrite <- app_assoc, drop_app_length. unfold writes. rewrite omap_app.
    fold (writes (bracket_events it v (properties s) ++
      redraw_events it (autoRender (properties
        (PropertyItem_onToggleCheckBox it (user_click (widget it) v s)))))).
    fold (writes (bracket_events it (negb v) (properties (user_toggle it v s)) ++
      redraw_events it (autoRender (properties
        (PropertyItem_onToggleCheckBox it
           (user_click (widget it) (negb v) (user_toggle it v s))))))).
    by rewrite !user_toggle_writes.
Qed.

(** X6.  The render checkbox gates the redraws of the other two: once the
    render item was toggled to [b], a toggle of a resolution item requests
    one redraw without keyword if [b] is true and none if it is false, and
    a toggle of a show-region item one redraw with [render=False] or none. *)
Theorem render_gates_redraws (ren it : PropertyItem) (b v : bool) (s : State) :
  cls ren = ChBRender -> cls it = ChBResolution \/ cls it = ChBShowRegion ->
  let s1 := user_toggle ren b s in
  redraws (since s1 (user_toggle it v s1)) =
    if b then [if decide (cls it = ChBResolution) then None else Some false] else [].
Proof.
  intros Hren Hit s1. rewrite user_toggle_redraws.
  assert (Har : autoRender (properties
            (PropertyItem_onToggleCheckBox it (user_click (widget it) v s1))) = b).
  { rewrite autoRender_get, inherited_get.
    change (properties (user_click (widget it) v s1)) with (properties s1).
    unfold s1. rewrite user_toggle_get. unfold mapWindowPropertyChanged.
    rewrite Hren. by destruct Hit as [-> | ->]. }
  rewrite Har. unfold redraw_events. by destruct Hit as [-> | ->], b.
Qed.

(** * Items and their checkboxes *)

Lemma deliver_checkbox_mono v hs s w :
  is_Some (checkboxes s !! w) -> is_Some (checkboxes (deliver v hs s) !! w).
Proof.
  revert s. induction hs as [|h hs IH]; intros s Hw; [done|].
  unfold deliver in *. simpl. apply IH. destruct h as [it|n]; simpl; [|done].
  rewrite lookup_insert. by case_decide.
Qed.

Lemma step_checkbox_mono ph s ph' s' w :
  step (ph, s) (ph', s') ->
  is_Some (checkboxes s !! w) -> is_Some (checkboxes s' !! w).
Proof.
  intros Hstep Hw. inversion Hstep; subst.
  - unfold __init__. simpl. rewrite !lookup_insert. by repeat case_decide.
  - unfold MapWindowProperties_set, Signal_emit. by apply deliver_checkbox_mono.
  - simpl. rewrite lookup_insert. by case_decide.
  - rewrite set_mapWindowProperty_set.
    unfold MapWindowProperties_set, Signal_emit. by apply deliver_checkbox_mono.
  - by destruct (post_toggle_rest it (_connect it s)) as (_ & -> & _).
Qed.

Lemma step_checkbox_exists ph s ph' s' it :
  step (ph, s) (ph', s') ->
  (it ∈ bound s -> is_Some (checkboxes s !! widget it)) ->
  it ∈ bound s' -> is_Some (checkboxes s' !! widget it).
Proof.
  intros Hstep IH Hit.
  assert (Hold : it ∈ bound s -> is_Some (checkboxes s' !! widget it)).
  { intros Hb. eapply step_checkbox_mono; [exact Hstep|by apply IH]. }
  inversion Hstep as [c s0|p v s0|it0 v s0 Hb|it0 s0|it0 s0]; subst.
  - change (it ∈ bound s ++ [{| cls := c; widget := next_widget s |}]) in Hit.
    apply elem_of_app in Hit as [Hit|Hit]; [by apply Hold|].
    apply list_elem_of_singleton in Hit as ->. unfold __init__. simpl.
    by rewrite lookup_insert_eq.
  - apply Hold. by rewrite bound_set in Hit.
  - by apply Hold.
  - apply Hold. by rewrite set_mapWindowProperty_set, bound_set in Hit.
  - apply Hold.
    destruct (post_toggle_rest it0 (_connect it0 s)) as (_ & _ & Hb & _).
    by rewrite Hb in Hit.
Qed.

Lemma reachable_checkbox_exists ph s it :
  reachable ph s -> it ∈ bound s -> is_Some (checkboxes s !! widget it).
Proof.
  intros (st & Hout & Hrun).
  change (it ∈ bound (ph, s).2 -> is_Some (checkboxes (ph, s).2 !! widget it)).
  revert Hrun. generalize (ph, s).
  apply (rtc_ind_r (fun c => it ∈ bound c.2 -> is_Some (checkboxes c.2 !! widget it))).
  - intros Hit. by apply elem_of_nil in Hit.
  - intros [ph1 s1] [ph2 s2] _ Hstep IH Hit. simpl in *.
    by eapply step_checkbox_exists.
Qed.

(** X7.  In every state of every run, [GetWidget] of a bound item is a
    checkbox that exists, and no other bound item returns the same one. *)
Theorem items_own_their_checkbox (ph : Phase) (s : State) (it it' : PropertyItem) :
  reachable ph s -> it ∈ bound s -> it' ∈ bound s ->
  is_Some (checkboxes s !! GetWidget it)
  /\ (GetWidget it' = GetWidget it -> it' = it).
Proof.
  intros Hreach Hit Hit'. split; [by apply (reachable_checkbox_exists ph)|].
  apply reachable_invariant in Hreach as Hinv. intros Hw.
  by apply (NoDup_fmap_eq widget (bound s)); [apply (inv_nodup _ _ Hinv)|..].
Qed.

(** * The display page *)

Section DisplayPage.
Variable s : State.
Let pg := (MapDisplayPropertiesDialog._createDisplayPage s).1.
Let s' := (MapDisplayPropertiesDialog._createDisplayPage s).2.

Lemma display_page_state : s' = createDisplayPage s.
Proof. reflexivity. Qed.

Lemma display_page_trace :
  trace s' = trace s ++
    [EvSetValue (next_widget s) (autoRender (properties s));
     EvConnect AutoRender (SetValueOf (MapDisplayPropertiesDialog.autoRendering pg));
     EvSetValue (S (next_widget s)) (alignExtent (properties s));
     EvConnect AlignExtent (SetValueOf (MapDisplayPropertiesDialog.alignExtent pg));
     EvSetValue (S (S (next_widget s))) (resolution (properties s));
     EvConnect Resolution (SetValueOf (MapDisplayPropertiesDialog.compResolution pg));
     EvSetValue (S (S (S (next_widget s)))) (showRegion (properties s));
     EvConnect ShowRegion (SetValueOf (MapDisplayPropertiesDialog.showCompExtent pg))].
Proof.
  rewrite display_page_state. unfold createDisplayPage. cbv zeta.
  rewrite !init_trace, <- !app_assoc.
  rewrite ?init_mapWindowProperty. f_equal.
Qed.

(** X8.  Building the display page fires no signal, writes no flag and
    requests no redraw; the four flags are what they were, and each of the
    four new checkboxes displays its flag. *)
Theorem display_page_is_quiet :
  emissions (since s s') = [] /\ writes (since s s') = []
  /\ redraws (since s s') = []
  /\ (forall p, get p (properties s') = get p (properties s))
  /\ Forall (displays_flag s')
       [MapDisplayPropertiesDialog.autoRendering pg;
        MapDisplayPropertiesDialog.alignExtent pg;
        MapDisplayPropertiesDialog.compResolution pg;
        MapDisplayPropertiesDialog.showCompExtent pg].
Proof.
  rewrite (since_app _ _ _ display_page_trace).
  split; [done|]. split; [done|]. split; [done|]. split.
  - intros p. rewrite display_page_state. unfold createDisplayPage. cbv zeta.
    by rewrite !init_get.
  - change (MapDisplayPropertiesDialog.autoRendering pg)
      with (__init__ ChBRender s).1.
    change (MapDisplayPropertiesDialog.alignExtent pg)
      with (__init__ ChBAlignExtent (__init__ ChBRender s).2).1.
    change (MapDisplayPropertiesDialog.compResolution pg)
      with (__init__ ChBResolution
              (__init__ ChBAlignExtent (__init__ ChBRender s).2).2).1.
    change (MapDisplayPropertiesDialog.showCompExtent pg)
      with (__init__ ChBShowRegion
              (__init__ ChBResolution
                 (__init__ ChBAlignExtent (__init__ ChBRender s).2).2).2).1.
    rewrite display_page_state. unfold createDisplayPage, displays_flag, GetWidget.
    cbv zeta.
    repeat apply Forall_cons_2; [..|apply Forall_nil_2];
      rewrite ?init_mapWindowProperty;
      rewrite ?init_checkbox_other
        by (change (widget (__init__ ?c ?x).1) with (next_widget x);
            rewrite ?init_next_widget; lia);
      by rewrite init_checkbox, ?init_mapWindowProperty.
Qed.

End DisplayPage.

(** * The further theorems at work on the demo dialogs *)

Local Ltac in_bound :=
  simpl; repeat first [apply list_elem_of_here | apply list_elem_of_further].

Lemma checkboxes_follow_flags_witness :
  let it := {| cls := ChBRender; widget := 0 |} in
  let s := demo_state true in
  (reachable Idle s /\ it ∈ bound s /\ Idle ≠ Unsubscribed it)
  /\ CheckBox_GetValue (GetWidget it) s = mapWindowProperty it s.
Proof.
  intros it s.
  assert (Hr : reachable Idle s) by apply demo_state_reachable.
  assert (Hb : it ∈ bound s).
  { unfold s. rewrite demo_state_bound. in_bound. }
  assert (Hph : Idle ≠ Unsubscribed it) by discriminate.
  split; [done|]. exact (checkboxes_follow_flags Idle s it Hr Hb Hph).
Defined.

Lemma toggle_reaches_every_dialog_witness :
  let it := {| cls := ChBResolution; widget := 2 |} in
  let it' := {| cls := ChBResolution; widget := 6 |} in
  let s := demo_two_dialogs false in
  (reachable Idle s /\ it ∈ bound s /\ it' ∈ bound s)
  /\ CheckBox_GetValue (GetWidget it') (user_toggle it true s) =
       if decide (cls it' = cls it) then true else CheckBox_GetValue (GetWidget it') s.
Proof.
  intros it it' s.
  assert (Hr : reachable Idle s) by apply demo_two_dialogs_reachable.
  assert (Hb : it ∈ bound s).
  { unfold s. rewrite demo_two_dialogs_bound, demo_state_bound. in_bound. }
  assert (Hb' : it' ∈ bound s).
  { unfold s. rewrite demo_two_dialogs_bound, demo_state_bound. in_bound. }
  split; [done|]. exact (toggle_reaches_every_dialog it it' true s Hr Hb Hb').
Defined.

Lemma outside_write_reaches_only_its_flag_witness :
  let it := {| cls := ChBAlignExtent; widget := 5 |} in
  let s := demo_two_dialogs false in
  (reachable Idle s /\ it ∈ bound s)
  /\ CheckBox_GetValue (GetWidget it) (MapWindowProperties_set AutoRender true s) =
       if decide (mapWindowPropertyChanged it = AutoRender) then true
       else CheckBox_GetValue (GetWidget it) s.
Proof.
  intros it s.
  assert (Hr : reachable Idle s) by apply demo_two_dialogs_reachable.
  assert (Hb : it ∈ bound s).
  { unfold s. rewrite demo_two_dialogs_bound, demo_state_bound. in_bound. }
  split; [done|]. exact (outside_write_reaches_only_its_flag AutoRender true s it Hr Hb).
Defined.

Lemma toggle_moves_handler_last_witness :
  let it := {| cls := ChBRender; widget := 0 |} in
  let s := demo_two_dialogs false in
  (reachable Idle s /\ it ∈ bound s)
  /\ receivers AutoRender (properties (user_toggle it true s)) =
       other_receivers it s ++ [SetValueOf it].
Proof.
  intros it s.
  assert (Hr : reachable Idle s) by apply demo_two_dialogs_reachable.
  assert (Hb : it ∈ bound s).
  { unfold s. rewrite demo_two_dialogs_bound, demo_state_bound. in_bound. }
  split; [done|].
  destruct (toggle_moves_handler_last it true s Hr Hb) as (H1 & _). exact H1.
Defined.

Lemma toggle_back_restores_witness :
  let it := {| cls := ChBResolution; widget := 2 |} in
  let s := demo_state true in
  let s2 := user_toggle it (negb true) (user_toggle it true s) in
  (reachable Idle s /\ it ∈ bound s /\ mapWindowProperty it s = negb true)
  /\ writes (since s s2) = [(Resolution, true); (Resolution, negb true)].
Proof.
  intros it s s2.
  assert (Hr : reachable Idle s) by apply demo_state_reachable.
  assert (Hb : it ∈ bound s).
  { unfold s. rewrite demo_state_bound. in_bound. }
  assert (Hp : mapWindowProperty it s = negb true) by reflexivity.
  split; [done|].
  destruct (toggle_back_restores it true s Hr Hb Hp) as (_ & _ & H3). exact H3.
Defined.

Lemma render_gates_redraws_witness :
  let ren := {| cls := ChBRender; widget := 0 |} in
  let it := {| cls := ChBShowRegion; widget := 3 |} in
  let s1 := user_toggle ren true (demo_state false) in
  (cls ren = ChBRender /\ (cls it = ChBResolution \/ cls it = ChBShowRegion))
  /\ redraws (since s1 (user_toggle it false s1)) =
       [if decide (cls it = ChBResolution) then None else Some false].
Proof.
  intros ren it s1.
  assert (Hren : cls ren = ChBRender) by reflexivity.
  assert (Hit : cls it = ChBResolution \/ cls it = ChBShowRegion)
    by (right; reflexivity).
  split; [done|].
  exact (render_gates_redraws ren it true false (demo_state false) Hren Hit).
Defined.

Lemma items_own_their_checkbox_witness :
  let it := {| cls := ChBResolution; widget := 2 |} in
  let it' := {| cls := ChBResolution; widget := 6 |} in
  let s := demo_two_dialogs true in
  (reachable Idle s /\ it ∈ bound s /\ it' ∈ bound s)
  /\ is_Some (checkboxes s !! GetWidget it).
Proof.
  intros it it' s.
  assert (Hr : reachable Idle s) by apply demo_two_dialogs_reachable.
  assert (Hb : it ∈ bound s).
  { unfold s. rewrite demo_two_dialogs_bound, demo_state_bound. in_bound. }
  assert (Hb' : it' ∈ bound s).
  { unfold s. rewrite demo_two_dialogs_bound, demo_state_bound. in_bound. }
  split; [done|].
  destruct (items_own_their_checkbox Idle s it it' Hr Hb Hb') as (H1 & _). exact H1.
Defined.
